(** * The AEGIS BrickRigs CPU assembler ([br_asm.py]) as a shallow embedding

  The assembler is a Lark [Interpreter] that walks a parse tree twice:
  pass 1 collects label addresses in [self.labels], pass 2 encodes every
  statement into a decimal word and appends one row per line to
  [self.listing].  Recoverable errors are printed on [stderr].

  The embedding keeps the structure of the Python class: one Rocq
  definition per method, written in a small monad that threads the
  attributes of [self], collects what is printed on [stdout]/[stderr],
  and propagates Python exceptions (the attributes keep the values they
  had when the exception was raised, as in Python). *)

From Stdlib Require Import ZArith String Ascii DecimalString Lia.
From stdpp Require Import gmap strings list fin_maps.

Local Open Scope Z_scope.
Local Open Scope string_scope.

(** ** Python values and built-ins used by the assembler *)

Module Py.

(** The exceptions the assembler's own statements can raise. *)
Inductive exn : Set :=
| AssertionError | TypeError | ValueError | IndexError | KeyError.

(** Outcome of evaluating an expression or running a statement. *)
Inductive res (A : Type) : Type :=
| Val (a : A)
| Raise (e : exn).
Arguments Val {A} a.
Arguments Raise {A} e.

(** A Python [str] is a [string], one [ascii] per character. Labels,
    mnemonics, registers and numerals are ASCII; text outside ASCII can
    only stand in a comment, where it is carried as its bytes and copied
    to the listing unread. *)

(** The line break written by [print] and by the ["\n"] escapes. *)
Definition nl : string := String "010"%char EmptyString.

(** [str(n)] for an [int] of at most 4300 digits, as every [int] the
    assembler prints is: an address, or what [int] returned. *)
Definition str (z : Z) : string := NilZero.string_of_int (Z.to_int z).

(** [str(x)] for an attribute that holds an [int] or [None]. *)
Definition str_opt (o : option Z) : string :=
  match o with Some z => str z | None => "None" end.

Definition is_digit (c : ascii) : bool :=
  let n := N_of_ascii c in ((48 <=? n) && (n <=? 57))%N.

Definition digit_val (c : ascii) : Z := Z.of_N (N_of_ascii c) - 48.

Fixpoint int_digits (acc : Z) (s : string) : option Z :=
  match s with
  | EmptyString => Some acc
  | String c r =>
      if is_digit c then int_digits (acc * 10 + digit_val c) r else None
  end.

(** [sys.int_max_str_digits], at its default: [int] refuses a numeral
    of more digits with a [ValueError]. *)
Definition max_str_digits : Z := 4300.

(** The digits of a numeral, after the optional sign: not empty, at most
    [max_str_digits], all of them digits. *)
Definition int_unsigned (r : string) : res Z :=
  match r with
  | EmptyString => Raise ValueError
  | _ =>
      if (max_str_digits <? Z.of_nat (String.length r))%Z then Raise ValueError
      else match int_digits 0 r with
           | Some v => Val v
           | None => Raise ValueError
           end
  end.

(** [int(s)] on the numerals the assembler can meet: a non-empty run of
    ASCII digits with an optional sign, of at most 4300 digits. Every
    other string is a [ValueError] here (Python also strips blanks and
    accepts ["_"] separators and digits outside ASCII; no token of the
    grammar has such a value). *)
Definition int (s : string) : res Z :=
  match s with
  | EmptyString => Raise ValueError
  | String c r =>
      if Ascii.eqb c "-" then
        match int_unsigned r with
        | Val v => Val (- v)
        | Raise e => Raise e
        end
      else if Ascii.eqb c "+" then int_unsigned r
      else int_unsigned s
  end.

(** [s[1:]] *)
Definition slice_from1 (s : string) : string :=
  match s with EmptyString => EmptyString | String _ r => r end.

(** [s[:-1]] *)
Fixpoint slice_but_last (s : string) : string :=
  match s with
  | EmptyString => EmptyString
  | String c r =>
      match r with
      | EmptyString => EmptyString
      | _ => String c (slice_but_last r)
      end
  end.

(** [s[1]] *)
Definition item1 (s : string) : res string :=
  match s with
  | String _ (String c _) => Val (String c EmptyString)
  | _ => Raise IndexError
  end.

(** Truth value of a [str]: non-empty. *)
Definition truthy (s : string) : bool :=
  match s with EmptyString => false | _ => true end.

Fixpoint fill (c : ascii) (n : nat) : string :=
  match n with O => EmptyString | S k => String c (fill c k) end.

(** [f"{s:w}"] for a [str]: left-aligned, padded with blanks. *)
Definition ljust (w : nat) (s : string) : string :=
  s ++ fill " " (w - String.length s).

(** [f"{s:c>w}"]: right-aligned, padded with [c]. *)
Definition rjust (c : ascii) (w : nat) (s : string) : string :=
  fill c (w - String.length s) ++ s.

(** [f"{n:w}"] for an [int]: right-aligned, padded with blanks. *)
Definition fmt_int (w : nat) (z : Z) : string := rjust " " w (str z).

Definition lower (c : ascii) : ascii :=
  let n := N_of_ascii c in
  if ((65 <=? n) && (n <=? 90))%N then ascii_of_N (n + 32) else c.

(** [re.match("pc", s, re.IGNORECASE)] as a truth value: [s] starts
    with [p] then [c], in either case. *)
Definition match_pc (s : string) : bool :=
  match s with
  | String a (String b _) =>
      Ascii.eqb (lower a) "p" && Ascii.eqb (lower b) "c"
  | _ => false
  end.

End Py.

(** ** The parse tree handed over by Lark *)

Module Token.
(** A Lark [Token]: a [str] (its [value]) tagged with the terminal's
    name and the source position. [Token('','')] has no position. *)
Record t : Type := mk
  { type : string; value : string; line : option Z; column : option Z }.
End Token.

Module Tree.
(** A [stmt] subtree: [data] is the alias of the alternative that
    matched, [children] are its named tokens (the keyword and the commas
    are anonymous and filtered out by Lark). *)
Record t : Type := mk { data : string; children : list Token.t }.
End Tree.

Module Line.
(** A [line] subtree. Its [children] list always has the three slots of
    [line: [LABELC] [stmt] [COMMENT] _NL]; an absent optional is [None]. *)
Record t : Type := mk
  { children0 : option Token.t;   (* LABELC  *)
    children1 : option Tree.t;    (* stmt    *)
    children2 : option Token.t }. (* COMMENT *)
End Line.

(** The [program] tree: its children are the [line] subtrees, in order. *)
Abbreviation Program := (list Line.t).

(** *** What the grammar lets through

  The terminals and the statement forms of [grammar], as decidable
  predicates on token values and on trees. *)

Module Grammar.
Import Py.

Definition is_letter_ (c : ascii) : bool :=
  let n := N_of_ascii c in
  (((65 <=? n) && (n <=? 90)) || ((97 <=? n) && (n <=? 122)) || (n =? 95))%N.

Fixpoint all_chars (p : ascii -> bool) (s : string) : bool :=
  match s with
  | EmptyString => true
  | String c r => p c && all_chars p r
  end.

(** [CNAME: ("_"|LETTER) ("_"|LETTER|DIGIT)*] *)
Definition CNAME (s : string) : bool :=
  match s with
  | EmptyString => false
  | String c r => is_letter_ c && all_chars (fun x => is_letter_ x || is_digit x) r
  end.

(** [INT: DIGIT+] *)
Definition INT (s : string) : bool :=
  match s with
  | EmptyString => false
  | _ => all_chars is_digit s
  end.

(** [LABEL: CNAME] *)
Definition LABEL (s : string) : bool := CNAME s.

(** [LABELC: CNAME ":"] *)
Fixpoint ends_with (c : ascii) (s : string) : bool :=
  match s with
  | EmptyString => false
  | String x r =>
      match r with
      | EmptyString => Ascii.eqb x c
      | _ => ends_with c r
      end
  end.

Definition LABELC (s : string) : bool :=
  ends_with ":" s && CNAME (slice_but_last s).

(** [COMMENT: /;.*/] *)
Definition COMMENT (s : string) : bool :=
  match s with
  | String c r => Ascii.eqb c ";" && all_chars (fun x => negb (Ascii.eqb x "010")) r
  | _ => false
  end.

(** [IMMINT: "#" INT] *)
Definition IMMINT (s : string) : bool :=
  match s with
  | String c r => Ascii.eqb c "#" && INT r
  | _ => false
  end.

(** [IMMLABEL: "#" CNAME] *)
Definition IMMLABEL (s : string) : bool :=
  match s with
  | String c r => Ascii.eqb c "#" && CNAME r
  | _ => false
  end.

(** [REG: /R[0-9]|PC/i] *)
Definition REG (s : string) : bool :=
  match s with
  | String a (String b EmptyString) =>
      (Ascii.eqb (lower a) "r" && is_digit b)
      || (Ascii.eqb (lower a) "p" && Ascii.eqb (lower b) "c")
  | _ => false
  end.

(** A token of terminal [ty] whose text matches the terminal. *)
Definition tok (ty : string) (p : string -> bool) (t : Token.t) : bool :=
  String.eqb (Token.type t) ty && p (Token.value t).

Definition reg_tok := tok "REG" REG.
(** [?imm: IMMINT | IMMLABEL] *)
Definition imm_tok (t : Token.t) := tok "IMMINT" IMMINT t || tok "IMMLABEL" IMMLABEL t.
(** [?target: LABEL | INT] *)
Definition target_tok (t : Token.t) := tok "LABEL" LABEL t || tok "INT" INT t.

Definition three_regs : list string := ["add"; "sub"; "mul"; "div"; "mod"].
Definition two_regs : list string := ["ld"; "neg"; "round"; "floor"].

(** The alternatives of [stmt], by alias. *)
Definition stmt (s : Tree.t) : bool :=
  match Tree.children s with
  | [t] => String.eqb (Tree.data s) "jp" && target_tok t
  | [d; x] =>
      reg_tok d &&
      ((String.eqb (Tree.data s) "ldi" && imm_tok x)
       || (bool_decide (Tree.data s ∈ two_regs) && reg_tok x))
  | [d; s1; s2] =>
      bool_decide (Tree.data s ∈ three_regs) && reg_tok d && reg_tok s1 && reg_tok s2
  | _ => false
  end.

Definition opt {A} (p : A -> bool) (o : option A) : bool :=
  match o with None => true | Some a => p a end.

(** [line: [LABELC] [stmt] [COMMENT] _NL] *)
Definition line (l : Line.t) : bool :=
  opt (tok "LABELC" LABELC) (Line.children0 l)
  && opt stmt (Line.children1 l)
  && opt (tok "COMMENT" COMMENT) (Line.children2 l).

(** [program: (line* )] *)
Definition program (p : Program) : bool := forallb line p.

End Grammar.

(** ** The [Assembler] class *)

Module Asm.
Import Py.

(** What [self.line] is bound to during [assemble]: the method
    [line_pass1] or the method [line_pass2]. *)
Inductive line_method : Set := Line_pass1 | Line_pass2.

(** The attributes of an [Assembler] instance. [address] and [line] are
    first assigned by [assemble], which never reads them before that. *)
Record Assembler : Type := mkAssembler
  { labels : gmap string Z;
    listing : string;
    address : Z;
    line : line_method }.

(** What a run writes, in order: [print(...)] and
    [print(..., file=sys.stderr)], with the text exactly as written. *)
Inductive event : Type :=
| Stdout (text : string)
| Stderr (text : string).

(** A method body: from the attributes of [self] to an outcome, the
    attributes afterwards and what was printed. *)
Definition M (A : Type) : Type := Assembler -> res A * Assembler * list event.

Definition ret {A} (a : A) : M A := fun self => (Val a, self, []).

Definition bind {A B} (m : M A) (k : A -> M B) : M B :=
  fun self =>
    match m self with
    | (Val a, self', out) =>
        let '(r, self'', out') := k a self' in (r, self'', (out ++ out')%list)
    | (Raise e, self', out) => (Raise e, self', out)
    end.

#[global] Instance M_ret : MRet M := @ret.
#[global] Instance M_bind : MBind M := fun A B k m => bind m k.

Definition raise {A} (e : exn) : M A := fun self => (Raise e, self, []).

(** An expression that may raise but neither reads nor writes [self]. *)
Definition lift {A} (r : res A) : M A := fun self => (r, self, []).

Definition get {A} (attr : Assembler -> A) : M A :=
  fun self => (Val (attr self), self, []).

Definition modify (f : Assembler -> Assembler) : M unit :=
  fun self => (Val tt, f self, []).

Definition emit (e : event) : M unit := fun self => (Val tt, self, [e]).

Definition when (b : bool) (m : M unit) : M unit := if b then m else ret tt.

(** [for x in xs: body(x)] *)
Fixpoint for_each {A} (xs : list A) (body : A -> M unit) : M unit :=
  match xs with
  | [] => ret tt
  | x :: rest => body x ;; for_each rest body
  end.

(** [xs[i]] *)
Definition item {A} (xs : list A) (i : nat) : M A :=
  match xs !! i with
  | Some x => ret x
  | None => raise IndexError
  end.

Definition set_labels (f : gmap string Z -> gmap string Z) (self : Assembler) :=
  mkAssembler (f (labels self)) (listing self) (address self) (line self).
Definition set_listing (f : string -> string) (self : Assembler) :=
  mkAssembler (labels self) (f (listing self)) (address self) (line self).
Definition set_address (f : Z -> Z) (self : Assembler) :=
  mkAssembler (labels self) (listing self) (f (address self)) (line self).
Definition set_line (m : line_method) (self : Assembler) :=
  mkAssembler (labels self) (listing self) (address self) m.

Definition NAME : string := "AEGIS BrickRigs CPU 0.6 Assembler".

(** [f"; {Assembler.NAME}\n;\n"] *)
Definition header : string := "; " ++ NAME ++ nl ++ ";" ++ nl.

(** [clear] *)
Definition clear : M unit := modify (set_listing (fun _ => header)).

(** [__init__]: the object right after [Assembler()]: an empty table and
    the header as listing. [self.address] and [self.line] are first
    assigned by [assemble]; the record has no unset field, so [init]
    carries there the values [assemble] assigns before anything reads
    them. [init] is an object to start requests from. *)
Definition init : Assembler := mkAssembler ∅ header 0 Line_pass1.

(** [error] *)
Definition error (token : Token.t) (msg : string) : M unit :=
  emit (Stderr (str_opt (Token.line token) ++ ":" ++ str_opt (Token.column token)
                ++ " Error: " ++ msg ++ nl)).

(** [reg] *)
Definition reg (token : Token.t) : M Z :=
  if match_pc (Token.value token) then ret 9
  else d ← lift (item1 (Token.value token)); lift (int d).

(** [imm]; the result is an [int] or [None]. *)
Definition imm (token : Token.t) : M (option Z) :=
  if String.eqb (Token.type token) "IMMINT" then
    val ← lift (int (slice_from1 (Token.value token)));
    if (val <? 0)%Z then
      error token ("literal " ++ str val ++ " must be non-negative");;
      ret (Some 0)
    else if (val >? 99)%Z then
      error token ("literal " ++ str val ++ " must be less than 100");;
      ret (Some 99)
    else ret (Some val)
  else if String.eqb (Token.type token) "IMMLABEL" then
    target ← get (fun self => labels self !! Token.value token);
    match target with
    | None =>
        error token ("unknown label " ++ Token.value token);;
        ret (Some 0)
    | Some a => ret (Some a)
    end
  else ret None.

(** [target]; the result is an [int] or [None]. *)
Definition target (token : Token.t) : M (option Z) :=
  if String.eqb (Token.type token) "INT" then
    val ← lift (int (Token.value token));
    if (val <? 0)%Z then
      error token ("literal " ++ str val ++ " must be non-negative");;
      ret (Some 0)
    else if (val >? 99)%Z then
      error token ("literal " ++ str val ++ " must be less than 100");;
      ret (Some 99)
    else ret (Some val)
  else if String.eqb (Token.type token) "LABEL" then
    target ← get (fun self => labels self !! Token.value token);
    match target with
    | None =>
        error token ("unknown label '" ++ Token.value token ++ "'");;
        ret (Some 0)
    | Some a => ret (Some a)
    end
  else ret None.

(** [word_3addr] *)
Definition word_3addr (ops : list Token.t) : M (option Z) :=
  dst ← item ops 0 ≫= reg;
  src1 ← item ops 1 ≫= reg;
  src2 ← item ops 2 ≫= reg;
  ret (Some (dst * 100 + src1 * 10 + src2)).

(** [word_2addr] *)
Definition word_2addr (ops : list Token.t) : M (option Z) :=
  dst ← item ops 0 ≫= reg;
  src1 ← item ops 1 ≫= reg;
  ret (Some (dst * 100 + src1 * 10)).

(** [word_dstimm]; [dst*100 + None] is a [TypeError]. *)
Definition word_dstimm (ops : list Token.t) : M (option Z) :=
  dst ← item ops 0 ≫= reg;
  i ← item ops 1 ≫= imm;
  match i with
  | Some v => ret (Some (dst * 100 + v))
  | None => raise TypeError
  end.

(** [word_jump] *)
Definition word_jump (ops : list Token.t) : M (option Z) :=
  item ops 0 ≫= target.

(** [word_none] *)
Definition word_none (_ : list Token.t) : M (option Z) := ret (Some 0).

(** [INSTRUCTIONS], in the order of the dict literal. *)
Definition INSTRUCTIONS : list (string * (Z * (list Token.t -> M (option Z)))) :=
  [ ("add",   (0, word_3addr));
    ("ld",    (0, word_2addr));
    ("neg",   (1000, word_2addr));
    ("sub",   (2000, word_3addr));
    ("mul",   (3000, word_3addr));
    ("div",   (4000, word_3addr));
    ("mod",   (5000, word_3addr));
    ("round", (6000, word_2addr));
    ("ldi",   (7000, word_dstimm));
    ("jp",    (7900, word_jump));
    ("floor", (8000, word_2addr)) ].

(** [d[key]] for a dict literal with distinct keys. *)
Fixpoint dict_item {V} (d : list (string * V)) (key : string) : M V :=
  match d with
  | [] => raise KeyError
  | (k, v) :: rest => if String.eqb k key then ret v else dict_item rest key
  end.

(** The body of [if stmt:] in [line_pass2] up to the assignment of [word]:
    [fmt = Assembler.INSTRUCTIONS[instr]; word = fmt[0] + fmt[1](self, ops)]. *)
Definition stmt_word (stmt : Tree.t) : M Z :=
  fmt ← dict_item INSTRUCTIONS (Tree.data stmt);
  w ← snd fmt (Tree.children stmt);
  match w with
  | Some v => ret (fst fmt + v)
  | None => raise TypeError
  end.

(** [f"{word:4}"], where [word] is [''] ([None] here) or an [int]. *)
Definition fmt_word (word : option Z) : string :=
  match word with
  | None => ljust 4 ""
  | Some w => fmt_int 4 w
  end.

(** The row [line_pass2] builds from its local variables:
    [inops = f"{instr:5} {', '.join(textops)}"] and
    [f"{self.address:0>2} {word:4} {label:8}  {inops:20} {comment}\n"]. *)
Definition row (addr : Z) (word : option Z) (label instr : string)
    (textops : list string) (comment : string) : string :=
  let inops := ljust 5 instr ++ " " ++ String.concat ", " textops in
  rjust "0" 2 (str addr) ++ " " ++ fmt_word word ++ " " ++ ljust 8 label ++ "  "
  ++ ljust 20 inops ++ " " ++ comment ++ nl.

(** [children[0].value[:-1] if children[0] else d]; a token is a [str]
    and is true when its text is non-empty. *)
Definition label_of (children0 : option Token.t) : option string :=
  match children0 with
  | Some t => if truthy (Token.value t) then Some (slice_but_last (Token.value t)) else None
  | None => None
  end.

(** Method [line_pass1]. The label is [None] or a [str]. *)
Definition line_pass1 (token : Line.t) : M unit :=
  let label := label_of (Line.children0 token) in
  let stmt := Line.children1 token in
  addr ← get address;
  match label with
  | Some l => when (truthy l) (modify (set_labels (insert l addr)))
  | None => ret tt
  end;;
  when (bool_decide (is_Some stmt)) (modify (set_address (fun a => a + 1))).

(** Method [line_pass2]. *)
Definition line_pass2 (token : Line.t) : M unit :=
  let label := default "" (label_of (Line.children0 token)) in
  let stmt := Line.children1 token in
  let comment :=
    match Line.children2 token with
    | Some c => if truthy (Token.value c) then Token.value c else ""
    | None => ""
    end in
  '(word, instr, ops) ←
    match stmt with
    | Some s =>
        w ← stmt_word s;
        ret (Some w, Tree.data s, Tree.children s)
    | None => ret (None, "", [Token.mk "" "" None None])
    end;
  let textops := map Token.value ops in
  when (truthy label || bool_decide (is_Some stmt) || truthy comment)
    (addr ← get address;
     let text := row addr word label instr textops comment in
     emit (Stdout text);;
     modify (set_listing (fun l => l ++ text)));;
  when (truthy label)
    (recorded ← get (fun self => labels self !! label);
     addr ← get address;
     match recorded with
     | None => raise KeyError
     | Some a => if (a =? addr)%Z then ret tt else raise AssertionError
     end);;
  when (bool_decide (is_Some stmt)) (modify (set_address (fun a => a + 1))).

(** [Interpreter.visit] on the [program] tree: no method is named
    [program], so the children are visited in order, and each [line]
    subtree is handed to whatever [self.line] is bound to. *)
Definition visit (tree : Program) : M unit :=
  for_each tree (fun child =>
    m ← get line;
    match m with
    | Line_pass1 => line_pass1 child
    | Line_pass2 => line_pass2 child
    end).

(** [assemble] *)
Definition assemble (tree : Program) : M unit :=
  modify (set_address (fun _ => 0));;
  modify (set_line Line_pass1);;
  visit tree;;
  (l ← get listing; emit (Stdout l));;
  modify (set_address (fun _ => 0));;
  modify (set_line Line_pass2);;
  visit tree.

(** What the [Assemble] button does with the parsed text:
    [asm.clear(); asm.assemble(thetree)]. *)
Definition request (tree : Program) : M unit := clear;; assemble tree.

(** The diagnostics among what was printed. *)
Definition diagnostics (out : list event) : list string :=
  omap (fun e => match e with Stderr t => Some t | Stdout _ => None end) out.

End Asm.

(** ** Sample parse trees

    The trees Lark builds for the default text and for a few short
    programs. A
    token carries the line and column where it starts. *)

Module Sample.

Definition tk (ty v : string) (l c : Z) : Token.t := Token.mk ty v (Some l) (Some c).

(** [defaulttext] of the source. *)
Definition defaulttree : Program :=
  [ Line.mk None None None;
    Line.mk (Some (tk "LABELC" "loop:" 2 1))
      (Some (Tree.mk "ldi" [tk "REG" "r3" 2 13; tk "IMMINT" "#10" 2 17]))
      (Some (tk "COMMENT" "; divisor" 2 30));
    Line.mk None
      (Some (Tree.mk "div" [tk "REG" "r1" 3 14; tk "REG" "r2" 3 18; tk "REG" "r3" 3 22]))
      (Some (tk "COMMENT" "; r1 = r2 / 10" 3 30));
    Line.mk None
      (Some (Tree.mk "mod" [tk "REG" "r2" 4 14; tk "REG" "r2" 4 18; tk "REG" "r3" 4 22]))
      (Some (tk "COMMENT" "; r2 = r2 % 10" 4 30));
    Line.mk None
      (Some (Tree.mk "floor" [tk "REG" "r1" 5 16; tk "REG" "r1" 5 20]))
      (Some (tk "COMMENT" "; r1 = ⌊r2 / 10⌋" 5 30));
    Line.mk None (Some (Tree.mk "jp" [tk "LABEL" "loop" 6 13])) None ].

(** [start: JP end / mid: LD r1,#5 / end: LD r2,#1] *)
Definition forward_jump : Program :=
  [ Line.mk (Some (tk "LABELC" "start:" 1 1))
      (Some (Tree.mk "jp" [tk "LABEL" "end" 1 11])) None;
    Line.mk (Some (tk "LABELC" "mid:" 2 2))
      (Some (Tree.mk "ldi" [tk "REG" "r1" 2 10; tk "IMMINT" "#5" 2 13])) None;
    Line.mk (Some (tk "LABELC" "end:" 3 2))
      (Some (Tree.mk "ldi" [tk "REG" "r2" 3 10; tk "IMMINT" "#1" 3 13])) None ].


(** [LD r1,#nosuch] *)
Definition ld_nosuch : Tree.t :=
  Tree.mk "ldi" [tk "REG" "r1" 1 4; tk "IMMLABEL" "#nosuch" 1 7].

(** [LD r0,r0 / x: LD r1,#x]: an immediate that names a defined label. *)
Definition ld_label : Program :=
  [ Line.mk None (Some (Tree.mk "ld" [tk "REG" "r0" 1 4; tk "REG" "r0" 1 7])) None;
    Line.mk (Some (tk "LABELC" "x:" 2 1))
      (Some (Tree.mk "ldi" [tk "REG" "r1" 2 7; tk "IMMLABEL" "#x" 2 10])) None ].

(** [a: LD r0,r0 / a: LD r0,r0]: one label on two statements. *)
Definition twice_a : Program :=
  [ Line.mk (Some (tk "LABELC" "a:" 1 1))
      (Some (Tree.mk "ld" [tk "REG" "r0" 1 7; tk "REG" "r0" 1 10])) None;
    Line.mk (Some (tk "LABELC" "a:" 2 1))
      (Some (Tree.mk "ld" [tk "REG" "r0" 2 7; tk "REG" "r0" 2 10])) None ].

(** [LD r0,r0 / foo: LD r0,r0], then, as a later request, [JP foo]. *)
Definition defines_foo : Program :=
  [ Line.mk None (Some (Tree.mk "ld" [tk "REG" "r0" 1 4; tk "REG" "r0" 1 7])) None;
    Line.mk (Some (tk "LABELC" "foo:" 2 1))
      (Some (Tree.mk "ld" [tk "REG" "r0" 2 9; tk "REG" "r0" 2 12])) None ].

Definition jumps_to_foo : Program :=
  [ Line.mk None (Some (Tree.mk "jp" [tk "LABEL" "foo" 1 4])) None ].

(** [a:] alone on a line. *)
Definition label_only : Line.t := Line.mk (Some (tk "LABELC" "a:" 1 1)) None None.

End Sample.

(** ** Reading a listing row

    A row starts with [f"{self.address:0>2} {word:4} "]: the address field
    is what stands before the first blank of the row (two columns or more:
    the format pads the address and never cuts it), the word field the
    four columns after that blank. A field is empty when it holds blanks
    only. *)

Module Row.

Fixpoint address_field (text : string) : string :=
  match text with
  | EmptyString => EmptyString
  | String c r => if Ascii.eqb c " " then EmptyString else String c (address_field r)
  end.

(** The row after the address field and the blank that ends it. *)
Fixpoint after_address (text : string) : string :=
  match text with
  | EmptyString => EmptyString
  | String c r => if Ascii.eqb c " " then r else after_address r
  end.

Definition word_field (text : string) : string := substring 0 4 (after_address text).

Definition blank (field : string) : bool :=
  Grammar.all_chars (fun c => Ascii.eqb c " ") field.

Definition no_blank (field : string) : bool :=
  Grammar.all_chars (fun c => negb (Ascii.eqb c " ")) field.

End Row.

(** ** Reference definitions

    What the properties below are stated with. The address of a line, as
    the data model has it, is the number of lines with a statement that
    come before it: [count_stmts] of the lines before. *)

Definition has_stmt (l : Line.t) : bool := bool_decide (is_Some (Line.children1 l)).

Definition count_stmts (p : Program) : Z :=
  Z.of_nat (List.length (filter (fun l => has_stmt l = true) p)).

(** Every key of the symbol table is an identifier ([CNAME]). *)
Definition label_keys (m : gmap string Z) : bool :=
  forallb (fun kv => Grammar.CNAME (fst kv)) (map_to_list m).

Import Py Asm.

(** The two halves of [assemble]: the statements under
    [# pass 1 - collect labels] and those under [# pass 2 - emit code]. *)
Definition pass1 (tree : Program) : M unit :=
  modify (set_address (fun _ => 0));;
  modify (set_line Line_pass1);;
  visit tree.

Definition pass2 (tree : Program) : M unit :=
  (l ← get listing; emit (Stdout l));;
  modify (set_address (fun _ => 0));;
  modify (set_line Line_pass2);;
  visit tree.

(** The name a line defines, if any: the label token without its colon. *)
Definition defined_label (l : Line.t) : option string :=
  match label_of (Line.children0 l) with
  | Some name => if truthy name then Some name else None
  | None => None
  end.

(** The symbol table after [line_pass1] has run over [p], starting at
    address [addr] with table [m]. *)
Fixpoint pass1_labels (p : Program) (addr : Z) (m : gmap string Z) : gmap string Z :=
  match p with
  | [] => m
  | l :: rest =>
      pass1_labels rest (if has_stmt l then addr + 1 else addr)
        (match defined_label l with Some name => <[name := addr]> m | None => m end)
  end.

(** A method body that leaves the attribute (or attributes) [f] of
    [self] as it found them, whatever it returns or raises. *)
Definition preserves {A B} (f : Assembler -> B) (m : M A) : Prop :=
  forall self, f (snd (fst (m self))) = f self.

(** What pass 2 never assigns: the symbol table and the binding of
    [self.line]. *)
Definition table_and_line (self : Assembler) : gmap string Z * line_method :=
  (labels self, line self).

(** The local variables [label] and [comment] of [line_pass2], and the
    outcome of its [assert(self.labels[label] == self.address)]. *)
Definition pass2_label (l : Line.t) : string := default "" (label_of (Line.children0 l)).

Definition pass2_comment (l : Line.t) : string :=
  from_option Token.value "" (Line.children2 l).

Definition check_label (label : string) (self : Assembler) : res unit :=
  if truthy label then
    match labels self !! label with
    | None => Raise KeyError
    | Some a => if (a =? address self)%Z then Val tt else Raise AssertionError
    end
  else Val tt.

(** What a run has written on [stdout], as one text. *)
Fixpoint stdout_text (out : list event) : string :=
  match out with
  | [] => ""
  | Stdout t :: rest => t ++ stdout_text rest
  | Stderr _ :: rest => stdout_text rest
  end.

(** Every address in the symbol table fits the two digits of an operand. *)
Definition label_values_fit (m : gmap string Z) : bool :=
  forallb (fun kv => (0 <=? snd kv)%Z && (snd kv <=? 99)%Z) (map_to_list m).

(** A line pass 1 does something with: it has a label or a statement. *)
Definition has_label_or_stmt (l : Line.t) : bool :=
  bool_decide (is_Some (defined_label l)) || has_stmt l.

(** A method body that writes nothing on [stdout] (it may write on
    [stderr]). *)
Definition only_diagnostics {A} (m : M A) : Prop :=
  forall self, stdout_text (snd (m self)) = "".

(** A literal [int] converts: an [INT], or the numeral of an [IMMINT],
    of at most [max_str_digits] digits. Tokens of other terminals are not
    converted and always fit. *)
Definition literal_fits (t : Token.t) : bool :=
  if String.eqb (Token.type t) "INT" then
    (Z.of_nat (String.length (Token.value t)) <=? max_str_digits)%Z
  else if String.eqb (Token.type t) "IMMINT" then
    (Z.of_nat (String.length (slice_from1 (Token.value t))) <=? max_str_digits)%Z
  else true.

Definition stmt_fits (s : Tree.t) : bool := forallb literal_fits (Tree.children s).

Definition line_fits (l : Line.t) : bool := Grammar.opt stmt_fits (Line.children1 l).

Definition program_fits (p : Program) : bool := forallb line_fits p.

(** * Properties *)

(** ** Characters and numerals *)

Lemma is_digit_cases (c : ascii) :
  is_digit c = true ->
  c ∈ ["0"; "1"; "2"; "3"; "4"; "5"; "6"; "7"; "8"; "9"]%char.
Proof.
  destruct c as [[] [] [] [] [] [] [] []]; intros H; try discriminate H;
    set_solver.
Qed.

(** The character of a decimal digit. *)
Lemma digit_char (d : Z) :
  0 <= d <= 9 ->
  let c := ascii_of_N (Z.to_N (48 + d)) in
  is_digit c = true /\ digit_val c = d.
Proof.
  intros Hd.
  assert (d = 0 \/ d = 1 \/ d = 2 \/ d = 3 \/ d = 4 \/ d = 5 \/ d = 6 \/ d = 7
          \/ d = 8 \/ d = 9) as Hc by lia.
  repeat destruct Hc as [-> | Hc]; try subst d; now vm_compute.
Qed.

Lemma digit_val_range (c : ascii) : is_digit c = true -> 0 <= digit_val c <= 9.
Proof.
  intros H. apply is_digit_cases in H.
  repeat (apply elem_of_cons in H as [-> | H]; [now vm_compute |]).
  now apply elem_of_nil in H.
Qed.

Lemma int_one_digit (c : ascii) :
  is_digit c = true -> int (String c EmptyString) = Val (digit_val c).
Proof.
  intros H. apply is_digit_cases in H.
  repeat (apply elem_of_cons in H as [-> | H]; [reflexivity |]).
  now apply elem_of_nil in H.
Qed.

Lemma int_digits_Some (s : string) : forall acc,
  Grammar.all_chars is_digit s = true -> 0 <= acc ->
  exists v, int_digits acc s = Some v /\ 0 <= v.
Proof.
  induction s as [| c r IH]; intros acc Hall Hacc; simpl in *.
  - eauto.
  - apply andb_true_iff in Hall as [Hc Hr]. rewrite Hc.
    apply IH; [assumption |]. pose proof (digit_val_range c Hc). lia.
Qed.

Lemma int_digit_head (c : ascii) (r : string) :
  is_digit c = true -> int (String c r) = int_unsigned (String c r).
Proof.
  intros Hc. apply is_digit_cases in Hc.
  repeat (apply elem_of_cons in Hc as [-> | Hc]; [reflexivity |]).
  now apply elem_of_nil in Hc.
Qed.

Lemma INT_head (s : string) :
  Grammar.INT s = true ->
  exists c r, s = String c r /\ is_digit c = true /\ Grammar.all_chars is_digit s = true.
Proof.
  destruct s as [| c r]; [discriminate |]. unfold Grammar.INT. intros Hall.
  exists c, r. split; [reflexivity |]. split; [| assumption].
  simpl in Hall. now apply andb_true_iff in Hall.
Qed.

(** [int] succeeds on every [INT] numeral of at most 4300 digits, and the
    result is not negative. *)
Lemma int_INT (s : string) :
  Grammar.INT s = true -> Z.of_nat (String.length s) <= max_str_digits ->
  exists v, int s = Val v /\ 0 <= v.
Proof.
  intros HINT Hlen. destruct (INT_head s HINT) as (c & r & -> & Hc & Hall).
  destruct (int_digits_Some (String c r) 0 Hall) as (v & Hv & Hpos); [lia |].
  exists v. split; [| assumption].
  rewrite (int_digit_head c r Hc). unfold int_unsigned. rewrite Hv.
  now replace (max_str_digits <? Z.of_nat (String.length (String c r)))%Z with false
    by (symmetry; apply Z.ltb_ge; exact Hlen).
Qed.

(** [int] raises [ValueError] on an [INT] numeral of more than 4300
    digits. *)
Lemma int_INT_long (s : string) :
  Grammar.INT s = true -> max_str_digits < Z.of_nat (String.length s) ->
  int s = Raise ValueError.
Proof.
  intros HINT Hlen. destruct (INT_head s HINT) as (c & r & -> & Hc & Hall).
  rewrite (int_digit_head c r Hc). unfold int_unsigned.
  now replace (max_str_digits <? Z.of_nat (String.length (String c r)))%Z with true
    by (symmetry; apply Z.ltb_lt; exact Hlen).
Qed.

(** ** Registers *)

Lemma reg_R_digit (r d : ascii) ty l c self :
  r = "R"%char \/ r = "r"%char -> is_digit d = true ->
  reg (Token.mk ty (String r (String d EmptyString)) l c) self
  = (Val (digit_val d), self, []).
Proof.
  intros Hr Hd. unfold reg. cbn [Token.value].
  assert (match_pc (String r (String d EmptyString)) = false) as ->
    by (destruct Hr as [-> | ->]; reflexivity).
  unfold item1, lift, mbind, M_bind, bind. now rewrite (int_one_digit d Hd).
Qed.

Lemma reg_PC (p c' : ascii) ty l c self :
  p = "P"%char \/ p = "p"%char -> c' = "C"%char \/ c' = "c"%char ->
  reg (Token.mk ty (String p (String c' EmptyString)) l c) self = (Val 9, self, []).
Proof.
  intros [-> | ->] [-> | ->]; reflexivity.
Qed.

Lemma lower_cases (a x : ascii) :
  x ∈ ["p"; "c"; "r"]%char -> Ascii.eqb (lower a) x = true ->
  a = x \/ a = ascii_of_N (N_of_ascii x - 32).
Proof.
  intros Hx H. apply Ascii.eqb_eq in H.
  repeat (apply elem_of_cons in Hx as [-> | Hx];
    [destruct a as [[] [] [] [] [] [] [] []]; try discriminate H; vm_compute; tauto |]).
  now apply elem_of_nil in Hx.
Qed.

(** Every [REG] token is [R] and a digit or the alias [PC]; [reg] turns
    it into a digit and neither raises, prints nor touches [self]. *)
Lemma reg_REG (token : Token.t) :
  Grammar.REG (Token.value token) = true ->
  exists z, 0 <= z <= 9 /\ forall self, reg token self = (Val z, self, []).
Proof.
  destruct token as [ty v l c]. cbn [Token.value].
  destruct v as [| a [| b [| ? ?]]]; try discriminate. unfold Grammar.REG.
  intros H. apply orb_true_iff in H as [H | H]; apply andb_true_iff in H as [Ha Hb].
  - exists (digit_val b). split; [now apply digit_val_range |]. intros self.
    apply reg_R_digit; [| assumption].
    destruct (lower_cases a "r" ltac:(set_solver) Ha) as [-> | ->]; vm_compute; tauto.
  - exists 9. split; [lia |]. intros self.
    destruct (lower_cases a "p" ltac:(set_solver) Ha) as [-> | ->],
      (lower_cases b "c" ltac:(set_solver) Hb) as [-> | ->]; reflexivity.
Qed.

Lemma reg_tok_REG (token : Token.t) :
  Grammar.reg_tok token = true -> Grammar.REG (Token.value token) = true.
Proof.
  unfold Grammar.reg_tok, Grammar.tok. intros H. now apply andb_true_iff in H as [_ H].
Qed.

(** C8: a register token [R]d or [r]d, for a digit d, encodes to d; the
    alias [PC], in any case, encodes to 9, which is what [R9] encodes to;
    and every token the terminal [REG] admits is of one of the two forms
    and encodes to a digit between 0 and 9. *)
Theorem C8_register_encoding (self : Assembler) :
  (forall (r : ascii) (d : Z) ty l c,
      r = "R"%char \/ r = "r"%char -> 0 <= d <= 9 ->
      let numeral := ascii_of_N (Z.to_N (48 + d)) in
      Grammar.REG (String r (String numeral EmptyString)) = true /\
      reg (Token.mk ty (String r (String numeral EmptyString)) l c) self
      = (Val d, self, []))
  /\ (forall (p c' : ascii) ty l c,
      p = "P"%char \/ p = "p"%char -> c' = "C"%char \/ c' = "c"%char ->
      Grammar.REG (String p (String c' EmptyString)) = true /\
      reg (Token.mk ty (String p (String c' EmptyString)) l c) self = (Val 9, self, []) /\
      reg (Token.mk ty "R9" l c) self = (Val 9, self, []))
  /\ (forall token, Grammar.reg_tok token = true ->
      exists z, 0 <= z <= 9 /\ reg token self = (Val z, self, [])).
Proof.
  split; [| split].
  - intros r d ty l c Hr Hd numeral.
    destruct (digit_char d Hd) as [Hdig Hval]. fold numeral in Hdig, Hval. split.
    + unfold Grammar.REG. rewrite Hdig. destruct Hr as [-> | ->]; reflexivity.
    + rewrite <- Hval. now apply reg_R_digit.
  - intros p c' ty l c Hp Hc. split; [| split].
    + destruct Hp as [-> | ->], Hc as [-> | ->]; reflexivity.
    + now apply reg_PC.
    + reflexivity.
  - intros token H. destruct (reg_REG token (reg_tok_REG token H)) as (z & Hz & Hreg).
    exists z. split; [assumption | apply Hreg].
Qed.

(** C8 at [r7] and at [pC]. *)
Lemma C8_register_encoding_witness :
  reg (Token.mk "REG" "r7" (Some 1) (Some 4)) init = (Val 7, init, [])
  /\ reg (Token.mk "REG" "pC" (Some 1) (Some 4)) init = (Val 9, init, [])
  /\ exists z, 0 <= z <= 9 /\ reg (Token.mk "REG" "R3" (Some 1) (Some 4)) init = (Val z, init, []).
Proof.
  destruct (C8_register_encoding init) as (HR & HPC & Hall).
  split; [| split].
  - apply (HR "r"%char 7 "REG" (Some 1) (Some 4)); [right; reflexivity | lia].
  - apply (HPC "p"%char "C"%char "REG" (Some 1) (Some 4)); [right | left]; reflexivity.
  - apply (Hall (Token.mk "REG" "R3" (Some 1) (Some 4))). reflexivity.
Defined.

(** ** Register-only statements *)

Lemma word_3addr_regs (d s1 s2 : Token.t) (dst src1 src2 : Z) self :
  reg d self = (Val dst, self, []) -> reg s1 self = (Val src1, self, []) ->
  reg s2 self = (Val src2, self, []) ->
  word_3addr [d; s1; s2] self = (Val (Some (dst * 100 + src1 * 10 + src2)), self, []).
Proof.
  intros Hd H1 H2. unfold word_3addr, item, mbind, M_bind, bind, mret, M_ret, ret.
  cbn [lookup list_lookup]. now rewrite Hd, H1, H2.
Qed.

Lemma word_2addr_regs (d s1 : Token.t) (dst src1 : Z) self :
  reg d self = (Val dst, self, []) -> reg s1 self = (Val src1, self, []) ->
  word_2addr [d; s1] self = (Val (Some (dst * 100 + src1 * 10)), self, []).
Proof.
  intros Hd H1. unfold word_2addr, item, mbind, M_bind, bind, mret, M_ret, ret.
  cbn [lookup list_lookup]. now rewrite Hd, H1.
Qed.

(** [stmt_word] once the table entry and the encoder's result are known. *)
Lemma stmt_word_entry (stmt : Tree.t) base enc self v self' out :
  dict_item INSTRUCTIONS (Tree.data stmt) self = (Val (base, enc), self, []) ->
  enc (Tree.children stmt) self = (Val (Some v), self', out) ->
  stmt_word stmt self = (Val (base + v), self', out).
Proof.
  intros Hfmt Henc. unfold stmt_word, mbind, M_bind, bind.
  rewrite Hfmt. cbn [fst snd]. rewrite Henc. cbn. now rewrite app_nil_r.
Qed.



(** ** Pass 1 *)

Lemma count_stmts_cons (l : Line.t) (p : Program) :
  count_stmts (l :: p) = (if has_stmt l then 1 else 0) + count_stmts p.
Proof.
  unfold count_stmts. rewrite filter_cons.
  destruct (decide (has_stmt l = true)) as [-> | Hn].
  - cbn [List.length]. lia.
  - destruct (has_stmt l); [congruence | lia].
Qed.

(** One line in pass 1: the label, if any, is recorded at the current
    address, then a statement advances the address. Nothing is printed and
    nothing is raised. *)
Lemma line_pass1_spec (l : Line.t) (self : Assembler) :
  line_pass1 l self =
  (Val tt,
   mkAssembler
     (match defined_label l with
      | Some name => <[name := address self]> (labels self)
      | None => labels self
      end)
     (listing self)
     (if has_stmt l then address self + 1 else address self)
     (line self),
   []).
Proof.
  unfold line_pass1, defined_label, has_stmt.
  destruct (label_of (Line.children0 l)) as [name |];
    [destruct (truthy name) |];
    destruct (bool_decide (is_Some (Line.children1 l)));
    destruct self; reflexivity.
Qed.

Lemma visit_pass1_spec (p : Program) : forall self,
  line self = Line_pass1 ->
  visit p self =
  (Val tt,
   mkAssembler (pass1_labels p (address self) (labels self)) (listing self)
     (address self + count_stmts p) Line_pass1,
   []).
Proof.
  unfold visit. induction p as [| l rest IH]; intros self Hline.
  - destruct self as [m lst a ln]. simpl in *. subst ln.
    unfold count_stmts. simpl. unfold ret. do 3 f_equal. lia.
  - cbn [for_each]. unfold mbind at 1. unfold M_bind, bind.
    unfold mbind at 1. unfold M_bind, bind, get. rewrite Hline.
    rewrite line_pass1_spec. cbn [app].
    rewrite IH by (simpl; assumption). cbn [labels listing address line pass1_labels app].
    rewrite count_stmts_cons. do 3 f_equal. destruct (has_stmt l); lia.
Qed.

Lemma pass1_spec (p : Program) (self : Assembler) :
  pass1 p self =
  (Val tt,
   mkAssembler (pass1_labels p 0 (labels self)) (listing self) (count_stmts p) Line_pass1,
   []).
Proof.
  unfold pass1, mbind, M_bind, bind, modify.
  rewrite visit_pass1_spec by reflexivity. reflexivity.
Qed.

Lemma assemble_passes (p : Program) (self : Assembler) :
  assemble p self = (pass1 p ;; pass2 p) self.
Proof.
  unfold assemble, pass1, pass2, mbind, M_bind, bind, modify, get, emit.
  cbn [app].
  destruct (visit p _) as [[[[] | e] s1] o1]; [| reflexivity].
  cbn [app]. now destruct (visit p _) as [[r2 s2] o2].
Qed.

(** Pass 1 adds its labels on top of the table it finds. *)
Lemma pass1_labels_union (p : Program) : forall addr (m : gmap string Z),
  pass1_labels p addr m = pass1_labels p addr ∅ ∪ m.
Proof.
  induction p as [| l rest IH]; intros addr m; cbn [pass1_labels].
  - now rewrite (left_id_L ∅ (∪)).
  - destruct (defined_label l) as [name |]; [| apply IH].
    rewrite IH, (IH _ (<[name:=addr]> ∅)).
    rewrite <- (assoc_L (∪)). f_equal.
    now rewrite insert_union_singleton_l, insert_empty.
Qed.

(** Running pass 1 again over the same program changes nothing. *)
Lemma pass1_labels_idem (p : Program) (addr : Z) (m : gmap string Z) :
  pass1_labels p addr (pass1_labels p addr m) = pass1_labels p addr m.
Proof.
  rewrite (pass1_labels_union p addr (pass1_labels p addr m)).
  rewrite (pass1_labels_union p addr m).
  now rewrite (assoc_L (∪)), (idemp_L (∪)).
Qed.

(** ** What a method leaves untouched *)

Section Preserves.
Context {B : Type} (f : Assembler -> B).

Lemma preserves_ret {A} (a : A) : preserves f (ret a).
Proof. now intros self. Qed.

Lemma preserves_mret {A} (a : A) : preserves f (mret a : M A).
Proof. now intros self. Qed.

Lemma preserves_raise {A} (e : exn) : preserves f (raise e : M A).
Proof. now intros self. Qed.

Lemma preserves_lift {A} (r : res A) : preserves f (lift r).
Proof. now intros self. Qed.

Lemma preserves_get {A} (attr : Assembler -> A) : preserves f (get attr).
Proof. now intros self. Qed.

Lemma preserves_emit (e : event) : preserves f (emit e).
Proof. now intros self. Qed.

Lemma preserves_modify (g : Assembler -> Assembler) :
  (forall self, f (g self) = f self) -> preserves f (modify g).
Proof. intros H self. apply H. Qed.

Lemma preserves_bind {A C} (m : M A) (k : A -> M C) :
  preserves f m -> (forall a, preserves f (k a)) -> preserves f (m ≫= k).
Proof.
  intros Hm Hk self. unfold mbind, M_bind, bind.
  specialize (Hm self). destruct (m self) as [[[a | e] s'] o]; cbn [fst snd] in *.
  - specialize (Hk a s'). destruct (k a s') as [[r s''] o']. cbn [fst snd] in *.
    congruence.
  - assumption.
Qed.

Lemma preserves_when (b : bool) (m : M unit) :
  preserves f m -> preserves f (when b m).
Proof. intros H. destruct b; [assumption | apply preserves_ret]. Qed.

Lemma preserves_item {A} (xs : list A) (i : nat) : preserves f (item xs i).
Proof. unfold item. destruct (xs !! i); [apply preserves_mret | apply preserves_raise]. Qed.

End Preserves.

Ltac preserves_step :=
  first
    [ apply preserves_bind; [| intros ?]
    | apply preserves_ret | apply preserves_mret | apply preserves_raise
    | apply preserves_lift | apply preserves_get | apply preserves_emit
    | apply preserves_item | apply preserves_when
    | apply preserves_modify; intros []; reflexivity
    | match goal with
      | |- preserves _ (if ?b then _ else _) => destruct b
      | |- preserves _ (match ?x with _ => _ end) => destruct x
      end ].

(** The encoders read [self] and print; they assign nothing. *)
Lemma reg_pure (token : Token.t) : preserves id (reg token).
Proof. unfold reg. repeat preserves_step. Qed.

Lemma error_pure (token : Token.t) (msg : string) : preserves id (error token msg).
Proof. unfold error. repeat preserves_step. Qed.

Lemma imm_pure (token : Token.t) : preserves id (imm token).
Proof. unfold imm. repeat (preserves_step || apply error_pure). Qed.

Lemma target_pure (token : Token.t) : preserves id (target token).
Proof. unfold target. repeat (preserves_step || apply error_pure). Qed.

Lemma preserves_dict_item {B V C} (f : Assembler -> B) (d : list (string * V))
    (key : string) (k : V -> M C) :
  Forall (fun kv => preserves f (k (snd kv))) d ->
  preserves f (dict_item d key ≫= k).
Proof.
  intros Hd. induction Hd as [| [k0 v] rest Hv _ IH]; cbn [dict_item].
  - now intros self.
  - destruct (String.eqb k0 key); [| assumption].
    intros self. unfold mbind, M_bind, bind, ret.
    specialize (Hv self). cbn [snd] in Hv.
    now destruct (k v self) as [[r s''] o'].
Qed.

Lemma stmt_word_pure (stmt : Tree.t) : preserves id (stmt_word stmt).
Proof.
  unfold stmt_word. apply preserves_dict_item. unfold INSTRUCTIONS.
  repeat (apply Forall_cons; split;
    [cbn [fst snd]; unfold word_3addr, word_2addr, word_dstimm, word_jump;
     repeat (preserves_step || apply reg_pure || apply imm_pure || apply target_pure) |]).
  constructor.
Qed.

(** A line of pass 2 assigns [listing] and [address] only. *)
Lemma preserves_id {A B} (f : Assembler -> B) (m : M A) :
  preserves id m -> preserves f m.
Proof. intros H self. unfold preserves, id in H. now rewrite H. Qed.

Lemma line_pass2_keeps (l : Line.t) : preserves table_and_line (line_pass2 l).
Proof.
  unfold line_pass2.
  repeat ((apply preserves_id; apply stmt_word_pure) || preserves_step).
Qed.

Lemma visit_pass2_keeps (p : Program) (self : Assembler) :
  line self = Line_pass2 ->
  table_and_line (snd (fst (visit p self))) = table_and_line self.
Proof.
  unfold visit. revert self. induction p as [| l rest IH]; intros self Hline.
  - reflexivity.
  - cbn [for_each]. unfold mbind at 1. unfold M_bind, bind.
    unfold mbind at 1. unfold M_bind, bind, get. rewrite Hline.
    pose proof (line_pass2_keeps l self) as Hl.
    destruct (line_pass2 l self) as [[[[] | e] s'] o]; cbn [fst snd app] in *.
    + assert (line s' = Line_pass2) as Hline'
        by (unfold table_and_line in Hl; congruence).
      specialize (IH s' Hline').
      destruct (for_each rest _ s') as [[r s''] o']. cbn [fst snd] in *. congruence.
    + assumption.
Qed.

Lemma pass2_keeps_labels (p : Program) (self : Assembler) :
  labels (snd (fst (pass2 p self))) = labels self.
Proof.
  unfold pass2, mbind, M_bind, bind, modify, get, emit. cbn [app].
  pose proof (visit_pass2_keeps p (set_line Line_pass2 (set_address (fun _ => 0) self))
                eq_refl) as H.
  destruct (visit p _) as [[r s'] o]. cbn [fst snd] in *.
  unfold table_and_line in H. now inversion H.
Qed.

(** ** Repeated requests on one assembler *)

(** A request is pass 2 run on the object pass 1 leaves: the table the
    request found with the labels of the program written over it, the
    bare header as listing. *)
Lemma request_spec (p : Program) (self : Assembler) :
  request p self =
  pass2 p (mkAssembler (pass1_labels p 0 (labels self)) header (count_stmts p) Line_pass1).
Proof.
  unfold request, clear. unfold mbind at 1. unfold M_bind, bind, modify.
  rewrite assemble_passes. unfold mbind at 1. unfold M_bind, bind.
  rewrite pass1_spec. cbn [labels listing set_listing app].
  now destruct (pass2 p _) as [[r s] o].
Qed.

(** C7: assembling the same tree again on the same assembler, each time
    after [clear], gives the same outcome, the same listing, the same
    diagnostics in the same order and the same output; the object is left
    exactly as the first request left it. *)
Theorem C7_request_idempotent (tree : Program) (self : Assembler) :
  let '(r1, self1, out1) := request tree self in
  let '(r2, self2, out2) := request tree self1 in
  listing self2 = listing self1 /\ diagnostics out2 = diagnostics out1
  /\ r2 = r1 /\ out2 = out1 /\ self2 = self1.
Proof.
  pose proof (request_spec tree self) as H1.
  pose proof (pass2_keeps_labels tree
    (mkAssembler (pass1_labels tree 0 (labels self)) header (count_stmts tree) Line_pass1))
    as Hl.
  rewrite <- H1 in Hl. cbn [labels] in Hl.
  destruct (request tree self) as [[r1 self1] out1] eqn:E1. cbn [fst snd] in Hl.
  rewrite request_spec, Hl, pass1_labels_idem, <- H1.
  repeat split.
Qed.

(** ** Labels and their addresses *)

Lemma slice_but_last_app (s : string) (c : ascii) :
  slice_but_last (s ++ String c EmptyString) = s.
Proof.
  induction s as [| x r IH]; [reflexivity |].
  destruct r as [| y r']; [reflexivity |].
  change (slice_but_last (String x (String y r') ++ String c EmptyString))
    with (String x (slice_but_last (String y r' ++ String c EmptyString))).
  now rewrite IH.
Qed.

Lemma ends_with_slice (c : ascii) (s : string) :
  Grammar.ends_with c s = true -> s = slice_but_last s ++ String c EmptyString.
Proof.
  induction s as [| x r IH]; [discriminate |]. cbn [Grammar.ends_with slice_but_last].
  destruct r as [| y r'].
  - intros H. apply Ascii.eqb_eq in H. now subst.
  - intros H.
    change (String x (String y r')
            = String x (slice_but_last (String y r') ++ String c EmptyString)).
    f_equal. now apply IH.
Qed.

Lemma CNAME_truthy (s : string) : Grammar.CNAME s = true -> truthy s = true.
Proof. now destruct s. Qed.

(** The label token [name:] of the grammar defines [name]. *)
Lemma LABELC_defines (l : Line.t) (t : Token.t) :
  Grammar.line l = true -> Line.children0 l = Some t ->
  Token.value t = slice_but_last (Token.value t) ++ ":"
  /\ Grammar.CNAME (slice_but_last (Token.value t)) = true
  /\ defined_label l = Some (slice_but_last (Token.value t)).
Proof.
  unfold Grammar.line, defined_label, label_of. intros Hl E. rewrite E in *.
  apply andb_true_iff in Hl as [Hl _]. apply andb_true_iff in Hl as [Hl _].
  cbn [Grammar.opt] in Hl. unfold Grammar.tok, Grammar.LABELC in Hl.
  apply andb_true_iff in Hl as [_ Hl]. apply andb_true_iff in Hl as [Hend Hname].
  split; [now apply ends_with_slice | split; [assumption |]].
  assert (truthy (Token.value t) = true) as -> by (now destruct (Token.value t)).
  now rewrite (CNAME_truthy _ Hname).
Qed.

Lemma line_without_label (l : Line.t) :
  Line.children0 l = None -> defined_label l = None.
Proof. unfold defined_label, label_of. now intros ->. Qed.

Lemma pass1_labels_other (p : Program) (name : string) : forall addr (m : gmap string Z),
  Forall (fun l => defined_label l <> Some name) p ->
  pass1_labels p addr m !! name = m !! name.
Proof.
  induction p as [| l rest IH]; intros addr m Hp; [reflexivity |].
  apply Forall_cons in Hp as [Hl Hrest]. cbn [pass1_labels]. rewrite IH by assumption.
  destruct (defined_label l) as [n |]; [| reflexivity].
  apply lookup_insert_ne. congruence.
Qed.

(** Pass 1 leaves a label at the address of the last line that defines it:
    the number of statements before that line. *)
Lemma pass1_labels_last (p : Program) (name : string) : forall (i : nat) l addr m,
  p !! i = Some l -> defined_label l = Some name ->
  Forall (fun l' => defined_label l' <> Some name) (drop (S i) p) ->
  pass1_labels p addr m !! name = Some (addr + count_stmts (take i p)).
Proof.
  induction p as [| l0 rest IH]; intros i l addr m Hi Hdef Hlater; [discriminate |].
  destruct i as [| i'].
  - injection Hi as ->. cbn [pass1_labels take]. rewrite Hdef.
    rewrite pass1_labels_other by assumption.
    rewrite lookup_insert_eq. unfold count_stmts. cbn. f_equal. lia.
  - cbn [pass1_labels take]. rewrite (IH i' l) by assumption.
    rewrite count_stmts_cons. f_equal. destruct (has_stmt l0); lia.
Qed.

(** [target] on a name the table knows: the recorded address, no
    diagnostic. *)
Lemma target_known (token : Token.t) (a : Z) (self : Assembler) :
  Token.type token = "LABEL" -> labels self !! Token.value token = Some a ->
  target token self = (Val (Some a), self, []).
Proof.
  intros Hty Hl. unfold target. rewrite Hty. cbn [String.eqb Ascii.eqb Bool.eqb].
  unfold mbind, M_bind, bind, get. now rewrite Hl.
Qed.

Lemma stmt_word_jp (token : Token.t) (self : Assembler) v self' out :
  target token self = (Val (Some v), self', out) ->
  stmt_word (Tree.mk "jp" [token]) self = (Val (7900 + v), self', out).
Proof.
  intros H. apply stmt_word_entry with (enc := word_jump); [reflexivity |].
  cbn [Tree.children]. unfold word_jump, item. cbn [lookup list_lookup].
  unfold mbind, M_bind, bind, mret, M_ret, ret. rewrite H. reflexivity.
Qed.


(** ** Range and unknown-label diagnostics *)

Lemma label_keys_Forall (m : gmap string Z) :
  label_keys m = true <-> map_Forall (fun k _ => Grammar.CNAME k = true) m.
Proof.
  unfold label_keys. rewrite map_Forall_to_list, forallb_forall, Forall_forall.
  split; intros H [k v] Hkv; apply (H (k, v)); now apply list_elem_of_In.
Qed.

(** No key of the symbol table starts with [#]. *)
Lemma label_keys_no_hash (m : gmap string Z) (name : string) :
  label_keys m = true -> m !! ("#" ++ name) = None.
Proof.
  intros H. apply label_keys_Forall in H.
  destruct (m !! ("#" ++ name)) as [v |] eqn:E; [| reflexivity].
  apply H in E. discriminate E.
Qed.


(** The table holds identifiers only: so it is after [Assembler()], and
    so it stays through every request on a tree of the grammar. *)
Lemma label_keys_init : label_keys (labels init) = true.
Proof. reflexivity. Qed.


Lemma imm_literal (token : Token.t) (v : Z) (self : Assembler) :
  Token.type token = "IMMINT" -> int (slice_from1 (Token.value token)) = Val v ->
  imm token self =
  if (v <? 0)%Z then
    (Val (Some 0), self,
     [Stderr (str_opt (Token.line token) ++ ":" ++ str_opt (Token.column token)
              ++ " Error: " ++ ("literal " ++ str v ++ " must be non-negative") ++ nl)])
  else if (v >? 99)%Z then
    (Val (Some 99), self,
     [Stderr (str_opt (Token.line token) ++ ":" ++ str_opt (Token.column token)
              ++ " Error: " ++ ("literal " ++ str v ++ " must be less than 100") ++ nl)])
  else (Val (Some v), self, []).
Proof.
  intros Hty Hint. unfold imm. rewrite Hty. cbn [String.eqb Ascii.eqb Bool.eqb].
  unfold mbind, M_bind, bind, lift. rewrite Hint.
  destruct (v <? 0)%Z; [reflexivity |]. destruct (v >? 99)%Z; reflexivity.
Qed.

Lemma target_literal (token : Token.t) (v : Z) (self : Assembler) :
  Token.type token = "INT" -> int (Token.value token) = Val v ->
  target token self =
  if (v <? 0)%Z then
    (Val (Some 0), self,
     [Stderr (str_opt (Token.line token) ++ ":" ++ str_opt (Token.column token)
              ++ " Error: " ++ ("literal " ++ str v ++ " must be non-negative") ++ nl)])
  else if (v >? 99)%Z then
    (Val (Some 99), self,
     [Stderr (str_opt (Token.line token) ++ ":" ++ str_opt (Token.column token)
              ++ " Error: " ++ ("literal " ++ str v ++ " must be less than 100") ++ nl)])
  else (Val (Some v), self, []).
Proof.
  intros Hty Hint. unfold target. rewrite Hty. cbn [String.eqb Ascii.eqb Bool.eqb].
  unfold mbind, M_bind, bind, lift. rewrite Hint.
  destruct (v <? 0)%Z; [reflexivity |]. destruct (v >? 99)%Z; reflexivity.
Qed.

(** When [int] raises, so do [imm] and [target], before anything is
    printed. *)
Lemma imm_literal_raise (token : Token.t) (e : exn) (self : Assembler) :
  Token.type token = "IMMINT" -> int (slice_from1 (Token.value token)) = Raise e ->
  imm token self = (Raise e, self, []).
Proof.
  intros Hty Hint. unfold imm. rewrite Hty. cbn [String.eqb Ascii.eqb Bool.eqb].
  unfold mbind, M_bind, bind, lift. now rewrite Hint.
Qed.

Lemma target_literal_raise (token : Token.t) (e : exn) (self : Assembler) :
  Token.type token = "INT" -> int (Token.value token) = Raise e ->
  target token self = (Raise e, self, []).
Proof.
  intros Hty Hint. unfold target. rewrite Hty. cbn [String.eqb Ascii.eqb Bool.eqb].
  unfold mbind, M_bind, bind, lift. now rewrite Hint.
Qed.

Lemma IMMINT_numeral (t : Token.t) :
  Grammar.IMMINT (Token.value t) = true -> Grammar.INT (slice_from1 (Token.value t)) = true.
Proof.
  destruct (Token.value t) as [| c r]; [discriminate |]. unfold Grammar.IMMINT.
  intros H. now apply andb_true_iff in H as [_ H].
Qed.

(** [imm] looks an immediate label up under the token's whole text, [#]
    included, which is never a key: the result is 0 and one diagnostic,
    whether or not the name after the [#] is in the table. *)
Lemma imm_label (token : Token.t) (name : string) (self : Assembler) :
  label_keys (labels self) = true ->
  Token.type token = "IMMLABEL" -> Token.value token = "#" ++ name ->
  imm token self =
  (Val (Some 0), self,
   [Stderr (str_opt (Token.line token) ++ ":" ++ str_opt (Token.column token)
            ++ " Error: " ++ ("unknown label #" ++ name) ++ nl)]).
Proof.
  intros Hkeys Hty Hval. unfold imm. rewrite Hty. cbn [String.eqb Ascii.eqb Bool.eqb].
  unfold mbind, M_bind, bind, get. rewrite Hval.
  now rewrite (label_keys_no_hash _ name Hkeys).
Qed.

Lemma target_unknown (token : Token.t) (self : Assembler) :
  Token.type token = "LABEL" -> labels self !! Token.value token = None ->
  target token self =
  (Val (Some 0), self,
   [Stderr (str_opt (Token.line token) ++ ":" ++ str_opt (Token.column token)
            ++ " Error: " ++ ("unknown label '" ++ Token.value token ++ "'") ++ nl)]).
Proof.
  intros Hty Hl. unfold target. rewrite Hty. cbn [String.eqb Ascii.eqb Bool.eqb].
  unfold mbind, M_bind, bind, get. now rewrite Hl.
Qed.

Lemma stmt_word_ldi (d x : Token.t) (self : Assembler) dst v self' out :
  reg d self = (Val dst, self, []) -> imm x self = (Val (Some v), self', out) ->
  stmt_word (Tree.mk "ldi" [d; x]) self = (Val (7000 + (dst * 100 + v)), self', out).
Proof.
  intros Hd Hx. apply stmt_word_entry with (enc := word_dstimm); [reflexivity |].
  cbn [Tree.children]. unfold word_dstimm, item. cbn [lookup list_lookup].
  unfold mbind, M_bind, bind, mret, M_ret, ret. rewrite Hd. cbn [app].
  rewrite Hx. cbn. now rewrite app_nil_r.
Qed.




(** ** The encoders never return [None] on a tree of the grammar *)

Lemma tok_inv (ty : string) (p : string -> bool) (t : Token.t) :
  Grammar.tok ty p t = true -> Token.type t = ty /\ p (Token.value t) = true.
Proof.
  unfold Grammar.tok. intros H. apply andb_true_iff in H as [Hty Hp].
  now apply String.eqb_eq in Hty.
Qed.

Lemma imm_tok_inv (t : Token.t) :
  Grammar.imm_tok t = true ->
  (Token.type t = "IMMINT" /\ Grammar.IMMINT (Token.value t) = true)
  \/ (Token.type t = "IMMLABEL" /\ Grammar.IMMLABEL (Token.value t) = true).
Proof.
  unfold Grammar.imm_tok. intros H.
  apply orb_true_iff in H as [H | H]; apply tok_inv in H; tauto.
Qed.

Lemma target_tok_inv (t : Token.t) :
  Grammar.target_tok t = true ->
  (Token.type t = "LABEL" /\ Grammar.LABEL (Token.value t) = true)
  \/ (Token.type t = "INT" /\ Grammar.INT (Token.value t) = true).
Proof.
  unfold Grammar.target_tok. intros H.
  apply orb_true_iff in H as [H | H]; apply tok_inv in H; tauto.
Qed.

Lemma literal_fits_INT (t : Token.t) :
  Token.type t = "INT" ->
  literal_fits t = (Z.of_nat (String.length (Token.value t)) <=? max_str_digits)%Z.
Proof. intros H. unfold literal_fits. now rewrite H. Qed.

Lemma literal_fits_IMMINT (t : Token.t) :
  Token.type t = "IMMINT" ->
  literal_fits t
  = (Z.of_nat (String.length (slice_from1 (Token.value t))) <=? max_str_digits)%Z.
Proof. intros H. unfold literal_fits. now rewrite H. Qed.

(** On a token the grammar puts after the comma of [LD], [imm] returns
    an [int] when the literal has at most 4300 digits (a label always
    has), and raises the [ValueError] of [int] otherwise. *)
Lemma imm_total (t : Token.t) (self : Assembler) :
  Grammar.imm_tok t = true -> literal_fits t = true ->
  exists v out, imm t self = (Val (Some v), self, out).
Proof.
  intros H Hfit. apply imm_tok_inv in H as [[Hty Hv] | [Hty Hv]].
  - rewrite (literal_fits_IMMINT t Hty) in Hfit. apply Z.leb_le in Hfit.
    destruct (int_INT _ (IMMINT_numeral t Hv) Hfit) as (v & Hint & Hpos).
    rewrite (imm_literal t v self Hty Hint).
    destruct (v <? 0)%Z; [eauto |]. destruct (v >? 99)%Z; eauto.
  - unfold imm. rewrite Hty. cbn [String.eqb Ascii.eqb Bool.eqb].
    unfold mbind, M_bind, bind, get.
    destruct (labels self !! Token.value t); cbn; eauto.
Qed.

Lemma imm_long (t : Token.t) (self : Assembler) :
  Grammar.imm_tok t = true -> literal_fits t = false ->
  Token.type t = "IMMINT" /\ imm t self = (Raise ValueError, self, []).
Proof.
  intros H Hfit. apply imm_tok_inv in H as [[Hty Hv] | [Hty Hv]].
  - split; [assumption |].
    rewrite (literal_fits_IMMINT t Hty) in Hfit. apply Z.leb_gt in Hfit.
    apply imm_literal_raise; [assumption |].
    now apply int_INT_long; [apply IMMINT_numeral |].
  - unfold literal_fits in Hfit. rewrite Hty in Hfit. discriminate Hfit.
Qed.

Lemma target_total (t : Token.t) (self : Assembler) :
  Grammar.target_tok t = true -> literal_fits t = true ->
  exists v out, target t self = (Val (Some v), self, out).
Proof.
  intros H Hfit. apply target_tok_inv in H as [[Hty Hv] | [Hty Hv]].
  - destruct (labels self !! Token.value t) as [a |] eqn:E.
    + rewrite (target_known t a self Hty E). eauto.
    + rewrite (target_unknown t self Hty E). eauto.
  - rewrite (literal_fits_INT t Hty) in Hfit. apply Z.leb_le in Hfit.
    destruct (int_INT _ Hv Hfit) as (v & Hint & Hpos).
    rewrite (target_literal t v self Hty Hint).
    destruct (v <? 0)%Z; [eauto |]. destruct (v >? 99)%Z; eauto.
Qed.

Lemma target_long (t : Token.t) (self : Assembler) :
  Grammar.target_tok t = true -> literal_fits t = false ->
  Token.type t = "INT" /\ target t self = (Raise ValueError, self, []).
Proof.
  intros H Hfit. apply target_tok_inv in H as [[Hty Hv] | [Hty Hv]].
  - unfold literal_fits in Hfit. rewrite Hty in Hfit. discriminate Hfit.
  - split; [assumption |].
    rewrite (literal_fits_INT t Hty) in Hfit. apply Z.leb_gt in Hfit.
    apply target_literal_raise; [assumption |]. now apply int_INT_long.
Qed.

Lemma reg_tok_fits (t : Token.t) : Grammar.reg_tok t = true -> literal_fits t = true.
Proof.
  intros H. apply tok_inv in H as [Hty _]. unfold literal_fits. now rewrite Hty.
Qed.

(** The table entry of every alias the grammar can produce. *)
Lemma dict_item_INSTRUCTIONS (instr : string) (self : Assembler) :
  instr ∈ (["jp"; "ldi"] ++ Grammar.two_regs ++ Grammar.three_regs)%list ->
  exists base enc,
    dict_item INSTRUCTIONS instr self = (Val (base, enc), self, []) /\
    (instr = "jp" -> enc = word_jump) /\ (instr = "ldi" -> enc = word_dstimm) /\
    (instr ∈ Grammar.two_regs -> enc = word_2addr) /\
    (instr ∈ Grammar.three_regs -> enc = word_3addr).
Proof.
  intros H. cbn [app Grammar.two_regs Grammar.three_regs] in H.
  repeat (apply elem_of_cons in H as [-> | H];
    [eexists _, _; split; [reflexivity |];
     repeat split; intros Hin; try reflexivity; try discriminate Hin;
     exfalso; revert Hin; unfold Grammar.two_regs, Grammar.three_regs;
     rewrite !elem_of_cons, elem_of_nil; intuition discriminate |]).
  now apply elem_of_nil in H.
Qed.

(** Every statement of the grammar whose literals have at most 4300
    digits has a word: the table has its alias, the encoder returns an
    [int], nothing is raised and [self] is as before. *)
Lemma stmt_word_total (stmt : Tree.t) (self : Assembler) :
  Grammar.stmt stmt = true -> stmt_fits stmt = true ->
  exists base enc w out,
    dict_item INSTRUCTIONS (Tree.data stmt) self = (Val (base, enc), self, []) /\
    enc (Tree.children stmt) self = (Val (Some w), self, out) /\
    stmt_word stmt self = (Val (base + w), self, out).
Proof.
  destruct stmt as [instr ops]. unfold Grammar.stmt, stmt_fits.
  cbn [Tree.data Tree.children]. intros H Hfit.
  assert (forall base enc w out,
    dict_item INSTRUCTIONS instr self = (Val (base, enc), self, []) ->
    enc ops self = (Val (Some w), self, out) ->
    exists base enc w out,
      dict_item INSTRUCTIONS instr self = (Val (base, enc), self, []) /\
      enc ops self = (Val (Some w), self, out) /\
      stmt_word (Tree.mk instr ops) self = (Val (base + w), self, out)) as Hdone.
  { intros base enc w out Hd He. exists base, enc, w, out.
    split; [assumption | split; [assumption |]]. now apply stmt_word_entry with (enc := enc). }
  destruct ops as [| t0 [| t1 [| t2 [| ? ?]]]]; try discriminate H.
  - apply andb_true_iff in H as [Hi Ht]. apply String.eqb_eq in Hi. subst instr.
    cbn [forallb] in Hfit. apply andb_true_iff in Hfit as [Hfit0 _].
    destruct (target_total t0 self Ht Hfit0) as (v & out & Hv).
    apply (Hdone 7900 word_jump v out); [reflexivity |].
    unfold word_jump, item. cbn [lookup list_lookup].
    unfold mbind, M_bind, bind, mret, M_ret, ret. now rewrite Hv.
  - apply andb_true_iff in H as [Hd H].
    destruct (reg_REG t0 (reg_tok_REG _ Hd)) as (dst & _ & Edst).
    apply orb_true_iff in H as [H | H]; apply andb_true_iff in H as [Hi Hx].
    + apply String.eqb_eq in Hi. subst instr.
      cbn [forallb] in Hfit. apply andb_true_iff in Hfit as [_ Hfit1].
      apply andb_true_iff in Hfit1 as [Hfit1 _].
      destruct (imm_total t1 self Hx Hfit1) as (v & out & Hv).
      apply (Hdone 7000 word_dstimm (dst * 100 + v) out); [reflexivity |].
      unfold word_dstimm, item. cbn [lookup list_lookup].
      unfold mbind, M_bind, bind, mret, M_ret, ret. rewrite Edst. cbn [app].
      rewrite Hv. cbn. now rewrite app_nil_r.
    + apply bool_decide_eq_true in Hi.
      destruct (reg_REG t1 (reg_tok_REG _ Hx)) as (src1 & _ & E1).
      destruct (dict_item_INSTRUCTIONS instr self) as (base & enc & Hd' & _ & _ & H2 & _);
        [do 2 apply list_elem_of_further; apply elem_of_app; now left |].
      rewrite (H2 Hi) in Hd'.
      apply (Hdone base word_2addr (dst * 100 + src1 * 10) []); [assumption |].
      now apply word_2addr_regs.
  - apply andb_true_iff in H as [H H2]. apply andb_true_iff in H as [H H1].
    apply andb_true_iff in H as [Hi H0]. apply bool_decide_eq_true in Hi.
    destruct (reg_REG t0 (reg_tok_REG _ H0)) as (dst & _ & Edst).
    destruct (reg_REG t1 (reg_tok_REG _ H1)) as (src1 & _ & E1).
    destruct (reg_REG t2 (reg_tok_REG _ H2)) as (src2 & _ & E2).
    destruct (dict_item_INSTRUCTIONS instr self) as (base & enc & Hd' & _ & _ & _ & H3);
      [do 2 apply list_elem_of_further; apply elem_of_app; now right |].
    rewrite (H3 Hi) in Hd'.
    apply (Hdone base word_3addr (dst * 100 + src1 * 10 + src2) []); [assumption |].
    now apply word_3addr_regs.
Qed.

Lemma stmt_word_entry_raise (stmt : Tree.t) base enc self e self' out :
  dict_item INSTRUCTIONS (Tree.data stmt) self = (Val (base, enc), self, []) ->
  enc (Tree.children stmt) self = (Raise e, self', out) ->
  stmt_word stmt self = (Raise e, self', out).
Proof.
  intros Hfmt Henc. unfold stmt_word, mbind, M_bind, bind.
  rewrite Hfmt. cbn [fst snd]. now rewrite Henc.
Qed.

(** A statement of the grammar with a literal of more than 4300 digits:
    [int] raises [ValueError] and so does the word computation, before
    anything is printed. *)
Lemma stmt_word_long (stmt : Tree.t) (self : Assembler) :
  Grammar.stmt stmt = true -> stmt_fits stmt = false ->
  stmt_word stmt self = (Raise ValueError, self, []).
Proof.
  destruct stmt as [instr ops]. unfold Grammar.stmt, stmt_fits.
  cbn [Tree.data Tree.children]. intros H Hfit.
  destruct ops as [| t0 [| t1 [| t2 [| ? ?]]]]; try discriminate H.
  - apply andb_true_iff in H as [Hi Ht]. apply String.eqb_eq in Hi. subst instr.
    cbn [forallb] in Hfit. rewrite andb_true_r in Hfit.
    destruct (target_long t0 self Ht Hfit) as [_ Hraise].
    apply stmt_word_entry_raise with (base := 7900) (enc := word_jump); [reflexivity |].
    cbn [Tree.children]. unfold word_jump, item. cbn [lookup list_lookup].
    unfold mbind, M_bind, bind, mret, M_ret, ret. now rewrite Hraise.
  - apply andb_true_iff in H as [Hd H]. cbn [forallb] in Hfit.
    rewrite (reg_tok_fits t0 Hd), andb_true_r in Hfit. cbn [andb] in Hfit.
    destruct (reg_REG t0 (reg_tok_REG _ Hd)) as (dst & _ & Edst).
    apply orb_true_iff in H as [H | H]; apply andb_true_iff in H as [Hi Hx].
    + apply String.eqb_eq in Hi. subst instr.
      destruct (imm_long t1 self Hx Hfit) as [_ Hraise].
      apply stmt_word_entry_raise with (base := 7000) (enc := word_dstimm); [reflexivity |].
      cbn [Tree.children]. unfold word_dstimm, item. cbn [lookup list_lookup].
      unfold mbind, M_bind, bind, mret, M_ret, ret. rewrite Edst. cbn [app].
      now rewrite Hraise.
    + rewrite (reg_tok_fits t1 Hx) in Hfit. discriminate Hfit.
  - apply andb_true_iff in H as [H H2]. apply andb_true_iff in H as [H H1].
    apply andb_true_iff in H as [_ H0]. cbn [forallb] in Hfit.
    rewrite (reg_tok_fits t0 H0), (reg_tok_fits t1 H1), (reg_tok_fits t2 H2) in Hfit.
    discriminate Hfit.
Qed.

(** ** One line of pass 2 *)

Lemma pass2_comment_eq (c2 : option Token.t) :
  match c2 with
  | Some c => if truthy (Token.value c) then Token.value c else ""
  | None => ""
  end = from_option Token.value "" c2.
Proof. destruct c2 as [c |]; [| reflexivity]. cbn. now destruct (Token.value c). Qed.

(** A line without a statement: a row with an empty word if there is a
    label or a comment, nothing otherwise; the address stays. *)
Lemma line_pass2_no_stmt (l : Line.t) (self : Assembler) :
  Line.children1 l = None ->
  line_pass2 l self =
  if truthy (pass2_label l) || truthy (pass2_comment l) then
    let text := row (address self) None (pass2_label l) "" [""] (pass2_comment l) in
    (check_label (pass2_label l) self, set_listing (fun lst => lst ++ text) self,
     [Stdout text])
  else (Val tt, self, []).
Proof.
  intros Hs. unfold line_pass2. rewrite Hs, pass2_comment_eq.
  fold (pass2_label l). fold (pass2_comment l).
  unfold check_label.
  unfold mbind, M_bind, bind, mret, M_ret, ret, when, get, modify, emit.
  cbn [bool_decide decide_rel map Token.value].
  replace (bool_decide (is_Some (@None Tree.t))) with false
    by (symmetry; apply bool_decide_eq_false; now intros [? ?]).
  rewrite orb_false_r.
  destruct (truthy (pass2_label l)) eqn:El; cbn [orb].
  - cbn [labels address set_listing app].
    destruct (labels self !! pass2_label l) as [a |]; [| reflexivity].
    destruct (a =? address self)%Z; reflexivity.
  - destruct (truthy (pass2_comment l)); [| now destruct self].
    reflexivity.
Qed.

(** The text of an [int] has no blank, and is not empty. *)
Lemma string_of_uint_no_blank (d : Decimal.uint) :
  Row.no_blank (NilEmpty.string_of_uint d) = true.
Proof. induction d as [| d IH | d IH | d IH | d IH | d IH | d IH | d IH | d IH | d IH | d IH];
  [reflexivity | exact IH ..]. Qed.

Lemma str_no_blank (a : Z) : Row.no_blank (str a) = true /\ truthy (str a) = true.
Proof.
  unfold str, NilZero.string_of_int.
  destruct (Z.to_int a) as [d | d]; unfold NilZero.string_of_uint.
  - pose proof (string_of_uint_no_blank d) as H. now destruct d.
  - pose proof (string_of_uint_no_blank d) as H. now destruct d.
Qed.

Lemma no_blank_app (a b : string) :
  Row.no_blank a = true -> Row.no_blank b = true -> Row.no_blank (a ++ b) = true.
Proof.
  unfold Row.no_blank. induction a as [| c r IH]; intros Ha Hb; [exact Hb |].
  cbn [Grammar.all_chars] in Ha. apply andb_true_iff in Ha as [Hc Hr].
  change (negb (Ascii.eqb c " ")
          && Grammar.all_chars (fun c => negb (Ascii.eqb c " ")) (r ++ b) = true).
  rewrite Hc. now apply IH.
Qed.

Lemma fill_zero_no_blank (n : nat) : Row.no_blank (fill "0" n) = true.
Proof. induction n as [| n IH]; [reflexivity | exact IH]. Qed.

Lemma length_fill (c : ascii) (n : nat) : String.length (fill c n) = n.
Proof. induction n as [| n IH]; [reflexivity |]. cbn. now rewrite IH. Qed.

Lemma string_length_app (a b : string) :
  String.length (a ++ b) = (String.length a + String.length b)%nat.
Proof.
  induction a as [| c r IH]; [reflexivity |].
  change (S (String.length (r ++ b)) = S (String.length r + String.length b)).
  now rewrite IH.
Qed.

(** [f"{a:0>2}"] has no blank and at least two columns. *)
Lemma rjust_address (a : Z) :
  Row.no_blank (rjust "0" 2 (str a)) = true
  /\ (2 <= String.length (rjust "0" 2 (str a)))%nat.
Proof.
  unfold rjust. split.
  - apply no_blank_app; [apply fill_zero_no_blank | apply str_no_blank].
  - rewrite string_length_app, length_fill. lia.
Qed.

(** The two fields of a row that starts with [field], a blank and [rest],
    where [field] has no blank. *)
Lemma address_field_app (field rest : string) :
  Row.no_blank field = true ->
  Row.address_field (field ++ " " ++ rest) = field
  /\ Row.after_address (field ++ " " ++ rest) = rest.
Proof.
  unfold Row.no_blank. induction field as [| c r IH]; intros H; [now split |].
  cbn [Grammar.all_chars] in H. apply andb_true_iff in H as [Hc Hr].
  apply negb_true_iff in Hc. destruct (IH Hr) as [IH1 IH2].
  change (String c r ++ " " ++ rest) with (String c (r ++ " " ++ rest)).
  cbn [Row.address_field Row.after_address]. rewrite Hc, IH1, IH2. now split.
Qed.

Lemma no_blank_not_blank (field : string) :
  Row.no_blank field = true -> (0 < String.length field)%nat -> Row.blank field = false.
Proof.
  destruct field as [| c r]; cbn [String.length]; [lia |]. intros H _.
  unfold Row.no_blank in H. cbn [Grammar.all_chars] in H.
  apply andb_true_iff in H as [Hc _]. apply negb_true_iff in Hc.
  unfold Row.blank. cbn [Grammar.all_chars]. now rewrite Hc.
Qed.

Lemma grammar_label_truthy (l : Line.t) :
  Grammar.line l = true -> is_Some (Line.children0 l) -> truthy (pass2_label l) = true.
Proof.
  intros Hl [t Ht]. destruct (LABELC_defines l t Hl Ht) as (_ & Hname & Hdef).
  unfold pass2_label, label_of. rewrite Ht.
  unfold defined_label, label_of in Hdef. rewrite Ht in Hdef.
  destruct (truthy (Token.value t)); [| discriminate].
  cbn [default]. now apply CNAME_truthy.
Qed.

Lemma grammar_comment_truthy (l : Line.t) :
  Grammar.line l = true -> is_Some (Line.children2 l) -> truthy (pass2_comment l) = true.
Proof.
  unfold Grammar.line, pass2_comment. intros Hl [c Hc]. rewrite Hc in *.
  apply andb_true_iff in Hl as [_ Hl]. apply tok_inv in Hl as [_ Hl].
  cbn [from_option]. now destruct (Token.value c).
Qed.

(** C9 (as the code has it): a line without a statement that has a label
    or a comment appends exactly one row to the listing; the word field of
    the row is empty (four blanks), the address field is not: it shows the
    current address counter, padded with zeros on the left to two columns
    and wider when the address has more digits; the instruction and
    operand columns are blank, the label and the comment follow; the
    address counter is left as it was, and nothing is raised when the line
    has no label or its label is recorded at the current address. A line
    with neither label, statement nor comment appends nothing. *)
Theorem C9_rows_without_statement (l : Line.t) (self : Assembler) :
  Grammar.line l = true -> Line.children1 l = None ->
  (is_Some (Line.children0 l) \/ is_Some (Line.children2 l) ->
   exists text,
     text = rjust "0" 2 (str (address self)) ++ " " ++ "    " ++ " "
            ++ ljust 8 (pass2_label l) ++ "  " ++ ljust 20 "      " ++ " "
            ++ pass2_comment l ++ nl
     /\ line_pass2 l self
        = (check_label (pass2_label l) self,
           set_listing (fun lst => lst ++ text) self, [Stdout text])
     /\ address (snd (fst (line_pass2 l self))) = address self
     /\ (Line.children0 l = None \/ labels self !! pass2_label l = Some (address self) ->
         check_label (pass2_label l) self = Val tt)
     /\ Row.address_field text = rjust "0" 2 (str (address self))
     /\ (2 <= String.length (Row.address_field text))%nat
     /\ Row.blank (Row.address_field text) = false
     /\ Row.word_field text = "    "
     /\ Row.blank (Row.word_field text) = true)
  /\ (Line.children0 l = None -> Line.children2 l = None ->
      line_pass2 l self = (Val tt, self, [])).
Proof.
  intros Hl Hs. rewrite (line_pass2_no_stmt l self Hs). split.
  - intros Hsome.
    assert (truthy (pass2_label l) || truthy (pass2_comment l) = true) as ->.
    { apply orb_true_iff. destruct Hsome as [H | H];
        [left; now apply grammar_label_truthy | right; now apply grammar_comment_truthy]. }
    eexists. split; [reflexivity |]. split; [reflexivity |]. split; [reflexivity |]. split.
    + intros [Hnone | Hrec]; unfold check_label.
      * unfold pass2_label, label_of. now rewrite Hnone.
      * rewrite Hrec, Z.eqb_refl. now destruct (truthy _).
    + destruct (rjust_address (address self)) as [Hnb Hlen].
      unfold Row.word_field.
      destruct (address_field_app (rjust "0" 2 (str (address self)))
                  ("    " ++ " " ++ ljust 8 (pass2_label l) ++ "  " ++ ljust 20 "      "
                   ++ " " ++ pass2_comment l ++ nl) Hnb) as [-> ->].
      split; [reflexivity |]. split; [exact Hlen |].
      split; [apply no_blank_not_blank; [exact Hnb | lia] |]. now split.
  - intros H0 H2. unfold pass2_label, pass2_comment, label_of. now rewrite H0, H2.
Qed.

(** C9 at a comment-only line, on the assembler that has assembled the
    default program: the address counter stands at its number of
    statements. *)
Lemma C9_rows_without_statement_witness :
  let l := Line.mk None None (Some (Sample.tk "COMMENT" "; note" 1 1)) in
  let self := snd (fst (request Sample.defaulttree init)) in
  exists text,
    text = rjust "0" 2 (str (address self)) ++ " " ++ "    " ++ " " ++ "        " ++ "  "
           ++ "                    " ++ " " ++ "; note" ++ nl
    /\ line_pass2 l self = (Val tt, set_listing (fun lst => lst ++ text) self, [Stdout text])
    /\ address (snd (fst (line_pass2 l self))) = address self
    /\ Row.blank (Row.address_field text) = false
    /\ Row.blank (Row.word_field text) = true.
Proof.
  intros l self.
  destruct (proj1 (C9_rows_without_statement l self eq_refl eq_refl))
    as (text & Htext & Hrun & Haddr & _ & _ & _ & Hfield & _ & Hword).
  - right. now exists (Sample.tk "COMMENT" "; note" 1 1).
  - exists text. split; [exact Htext |]. split; [exact Hrun |]. split; [exact Haddr |].
    split; [exact Hfield | exact Hword].
Defined.

(** C9 past address 99, in pass 2 with the counter at 100 and at 1000: the
    address field takes three and four columns, and the word field is
    still the four blanks after it. *)
Lemma C9_rows_at_wide_addresses :
  let l := Line.mk None None (Some (Sample.tk "COMMENT" "; note" 1 1)) in
  (exists text,
     line_pass2 l (mkAssembler ∅ header 100 Line_pass2)
     = (Val tt, mkAssembler ∅ (header ++ text) 100 Line_pass2, [Stdout text])
     /\ Row.address_field text = "100" /\ Row.word_field text = "    ")
  /\ (exists text,
     line_pass2 l (mkAssembler ∅ header 1000 Line_pass2)
     = (Val tt, mkAssembler ∅ (header ++ text) 1000 Line_pass2, [Stdout text])
     /\ Row.address_field text = "1000" /\ Row.word_field text = "    ").
Proof.
  cbv zeta. split; eexists; (split; [vm_compute; reflexivity |]); now vm_compute.
Qed.

(** C9, counterexample: the row of the label-only line [a:] has [00] in
    its address field, not blanks; only its word field is empty. *)
Lemma C9_address_field_not_empty :
  let self := snd (fst (pass1 [Sample.label_only] init)) in
  Grammar.line Sample.label_only = true /\ Line.children1 Sample.label_only = None /\
  is_Some (Line.children0 Sample.label_only) /\
  exists text,
    line_pass2 Sample.label_only self
    = (Val tt, set_listing (fun lst => lst ++ text) self, [Stdout text])
    /\ Row.address_field text = "00"
    /\ Row.blank (Row.address_field text) = false
    /\ Row.blank (Row.word_field text) = true.
Proof.
  cbv zeta. split; [reflexivity |]. split; [reflexivity |]. split; [now eexists |].
  eexists. split; [vm_compute; reflexivity |]. now vm_compute.
Qed.

(** ** Statements in pass 2, and jumps to labels *)

(** A line with a statement, once the word is known: the row is appended,
    then the label is checked, then the address advances. *)
Lemma line_pass2_stmt (l : Line.t) (s : Tree.t) (self : Assembler) w out :
  Line.children1 l = Some s -> stmt_word s self = (Val w, self, out) ->
  line_pass2 l self =
  let text := row (address self) (Some w) (pass2_label l) (Tree.data s)
                (map Token.value (Tree.children s)) (pass2_comment l) in
  match check_label (pass2_label l) self with
  | Val _ =>
      (Val tt, set_address (fun a => a + 1) (set_listing (fun lst => lst ++ text) self),
       (out ++ [Stdout text])%list)
  | Raise e => (Raise e, set_listing (fun lst => lst ++ text) self, (out ++ [Stdout text])%list)
  end.
Proof.
  intros Hs Hw. unfold line_pass2. rewrite Hs, pass2_comment_eq.
  fold (pass2_label l). fold (pass2_comment l). unfold check_label.
  unfold mbind at 1. unfold M_bind, bind. unfold mbind at 1. unfold M_bind, bind.
  rewrite Hw. cbn [mret M_ret ret app].
  replace (bool_decide (is_Some (Some s))) with true
    by (symmetry; apply bool_decide_eq_true; now eexists).
  rewrite orb_true_r. cbn [orb when].
  unfold mbind, M_bind, bind, mret, M_ret, ret, when, get, modify, emit.
  destruct self as [m lst addr ln]. unfold set_listing, set_address, raise.
  cbv beta iota delta [labels listing address line].
  destruct (truthy (pass2_label l));
    [destruct (m !! pass2_label l) as [a |]; [destruct (a =? addr)%Z |] |];
    cbn [app]; now rewrite ?app_nil_r.
Qed.

(** When the encoder raises, [line_pass2] raises the same exception at
    once: nothing is appended to the listing and the address stays. *)
Lemma line_pass2_raise (l : Line.t) (s : Tree.t) (self : Assembler) e self' out :
  Line.children1 l = Some s -> stmt_word s self = (Raise e, self', out) ->
  line_pass2 l self = (Raise e, self', out).
Proof.
  intros Hs Hw. unfold line_pass2. rewrite Hs.
  unfold mbind at 1. unfold M_bind, bind. unfold mbind at 1. unfold M_bind, bind.
  now rewrite Hw.
Qed.

(** C3: a [JP] to a bare label that some line of the program defines,
    before or after the jump, assembles to 7900 plus the address pass 1
    recorded for the label, which is the number of statements before the
    (last) line that carries it, and no diagnostic is printed; pass 2 runs
    with exactly that table, whatever lines it has gone through, and the
    row it appends for the line of the jump shows that word.
    [JP end] at address 0 with [end] at address 2
    gives 7902, and the default program gets addresses 0 to 4 with its
    [JP loop] assembled to 7900. *)
Theorem C3_jump_to_label :
  (forall (p : Program) (self0 : Assembler) (i : nat) (l : Line.t) (lt tok : Token.t)
          (name : string),
      Grammar.program p = true ->
      p !! i = Some l -> Line.children0 l = Some lt -> Token.value lt = name ++ ":" ->
      (forall j l' lt', (i < j)%nat -> p !! j = Some l' -> Line.children0 l' = Some lt' ->
                        Token.value lt' <> name ++ ":") ->
      Token.type tok = "LABEL" -> Token.value tok = name ->
      exists self1,
        pass1 p self0 = (Val tt, self1, []) /\
        labels self1 !! name = Some (count_stmts (take i p)) /\
        (forall q, labels (snd (fst (pass2 q self1))) = labels self1) /\
        forall self2, labels self2 = labels self1 ->
          stmt_word (Tree.mk "jp" [tok]) self2
          = (Val (7900 + count_stmts (take i p)), self2, []) /\
          forall lj, Line.children1 lj = Some (Tree.mk "jp" [tok]) ->
            let text := row (address self2) (Some (7900 + count_stmts (take i p)))
                          (pass2_label lj) "jp" [name] (pass2_comment lj) in
            snd (line_pass2 lj self2) = [Stdout text] /\
            listing (snd (fst (line_pass2 lj self2))) = listing self2 ++ text)
  /\ (fst (fst (request Sample.forward_jump init)) = Val tt /\
      diagnostics (snd (request Sample.forward_jump init)) = [] /\
      listing (snd (fst (request Sample.forward_jump init)))
      = header
        ++ row 0 (Some 7902) "start" "jp" ["end"] ""
        ++ row 1 (Some 7105) "mid" "ldi" ["r1"; "#5"] ""
        ++ row 2 (Some 7201) "end" "ldi" ["r2"; "#1"] "")
  /\ (fst (fst (request Sample.defaulttree init)) = Val tt /\
      diagnostics (snd (request Sample.defaulttree init)) = [] /\
      listing (snd (fst (request Sample.defaulttree init)))
      = header
        ++ row 0 (Some 7310) "loop" "ldi" ["r3"; "#10"] "; divisor"
        ++ row 1 (Some 4123) "" "div" ["r1"; "r2"; "r3"] "; r1 = r2 / 10"
        ++ row 2 (Some 5223) "" "mod" ["r2"; "r2"; "r3"] "; r2 = r2 % 10"
        ++ row 3 (Some 8110) "" "floor" ["r1"; "r1"] "; r1 = ⌊r2 / 10⌋"
        ++ row 4 (Some 7900) "" "jp" ["loop"] "").
Proof.
  split; [| split; [| split; [| split]; vm_compute; reflexivity]];
    [| split; [| split]; vm_compute; reflexivity].
  intros p self0 i l lt tok name Hp Hi Hlt Hval Hlast Hty Htok.
  rewrite pass1_spec. eexists. split; [reflexivity |]. cbn [labels].
  assert (pass1_labels p 0 (labels self0) !! name = Some (count_stmts (take i p))) as Hlook.
  { assert (Forall (fun x => Grammar.line x = true) p) as Hlines
      by (apply Forall_forall; intros x Hx; unfold Grammar.program in Hp;
          rewrite forallb_forall in Hp; apply Hp; now apply list_elem_of_In).
    rewrite (pass1_labels_last p name i l 0 (labels self0) Hi).
    - f_equal; lia.
    - destruct (LABELC_defines l lt) as (_ & _ & ->); [| assumption |].
      + rewrite Forall_forall in Hlines. apply Hlines. now apply list_elem_of_lookup_2 in Hi.
      + rewrite Hval. now rewrite slice_but_last_app.
    - apply Forall_forall. intros l' Hl'. apply list_elem_of_lookup in Hl' as [k Hk].
      rewrite lookup_drop in Hk. intros Hdef.
      destruct (Line.children0 l') as [lt' |] eqn:E;
        [| rewrite line_without_label in Hdef by assumption; discriminate].
      destruct (LABELC_defines l' lt') as (Hv & _ & Hd); [| assumption |].
      + rewrite Forall_forall in Hlines. apply Hlines. now apply list_elem_of_lookup_2 in Hk.
      + rewrite Hd in Hdef. injection Hdef as Hn. rewrite Hn in Hv.
        apply (Hlast (S i + k)%nat l' lt'); [lia | assumption | assumption | assumption]. }
  split; [assumption |]. split; [intros q; apply pass2_keeps_labels |].
  intros self2 Hl2.
  assert (stmt_word (Tree.mk "jp" [tok]) self2
          = (Val (7900 + count_stmts (take i p)), self2, [])) as Hword.
  { apply stmt_word_jp. apply target_known; [assumption |]. now rewrite Hl2, Htok. }
  split; [assumption |]. intros lj Hlj.
  rewrite (line_pass2_stmt lj _ self2 _ _ Hlj Hword). cbv zeta.
  cbn [Tree.data Tree.children map]. rewrite Htok.
  destruct (check_label (pass2_label lj) self2); split; reflexivity.
Qed.

(** C3 at the forward jump of [start: JP end / mid: ... / end: ...]. *)
Lemma C3_jump_to_label_witness :
  exists self1,
    pass1 Sample.forward_jump init = (Val tt, self1, []) /\
    labels self1 !! "end" = Some (count_stmts (take 2 Sample.forward_jump)) /\
    (forall q, labels (snd (fst (pass2 q self1))) = labels self1) /\
    forall self2, labels self2 = labels self1 ->
      stmt_word (Tree.mk "jp" [Sample.tk "LABEL" "end" 1 11]) self2
      = (Val (7900 + count_stmts (take 2 Sample.forward_jump)), self2, []) /\
      forall lj, Line.children1 lj = Some (Tree.mk "jp" [Sample.tk "LABEL" "end" 1 11]) ->
        let text := row (address self2) (Some (7900 + count_stmts (take 2 Sample.forward_jump)))
                      (pass2_label lj) "jp" ["end"] (pass2_comment lj) in
        snd (line_pass2 lj self2) = [Stdout text] /\
        listing (snd (fst (line_pass2 lj self2))) = listing self2 ++ text.
Proof.
  apply (proj1 C3_jump_to_label Sample.forward_jump init 2%nat
           (Line.mk (Some (Sample.tk "LABELC" "end:" 3 2))
              (Some (Tree.mk "ldi" [Sample.tk "REG" "r2" 3 10; Sample.tk "IMMINT" "#1" 3 13]))
              None)
           (Sample.tk "LABELC" "end:" 3 2) (Sample.tk "LABEL" "end" 1 11) "end");
    try reflexivity.
  intros j l' lt' Hj Hl'. destruct j as [| [| [| j]]]; try lia. discriminate.
Defined.

(** ** Whole programs in pass 2 *)

Lemma pass2_label_defined (l : Line.t) :
  Grammar.line l = true ->
  match defined_label l with
  | Some name => pass2_label l = name /\ truthy name = true
  | None => pass2_label l = ""
  end.
Proof.
  intros Hl. destruct (Line.children0 l) as [t |] eqn:E.
  - destruct (LABELC_defines l t Hl E) as (_ & Hname & Hdef). rewrite Hdef.
    split; [| now apply CNAME_truthy].
    unfold defined_label in Hdef. unfold pass2_label.
    destruct (label_of (Line.children0 l)) as [n |]; [| discriminate].
    destruct (truthy n); [| discriminate]. now injection Hdef as ->.
  - rewrite line_without_label by assumption. unfold pass2_label, label_of. now rewrite E.
Qed.

(** One line of the grammar in pass 2, when the label (if any) is in the
    table: the line either completes, leaving the table and the binding of
    [self.line] alone and advancing the address by one exactly when it has
    a statement, or fails its assertion because the recorded address is
    not the current one, or, when a literal has more than 4300 digits,
    raises the [ValueError] of [int]. *)
Lemma line_pass2_outcome (l : Line.t) (self : Assembler) :
  Grammar.line l = true ->
  (forall name, defined_label l = Some name -> is_Some (labels self !! name)) ->
  exists r self' out,
    line_pass2 l self = (r, self', out) /\
    labels self' = labels self /\ line self' = line self /\
    ((r = Val tt /\ address self' = (if has_stmt l then address self + 1 else address self))
     \/ (r = Raise AssertionError /\
         exists name a, defined_label l = Some name /\ labels self !! name = Some a
                        /\ a <> address self)
     \/ (r = Raise ValueError /\ line_fits l = false)).
Proof.
  intros Hl Hdom.
  assert (check_label (pass2_label l) self = Val tt
          \/ (check_label (pass2_label l) self = Raise AssertionError /\
              exists name a, defined_label l = Some name /\ labels self !! name = Some a
                             /\ a <> address self)) as Hcheck.
  { pose proof (pass2_label_defined l Hl) as Hlab. unfold check_label.
    destruct (defined_label l) as [name |] eqn:Hdef.
    - destruct Hlab as [-> Htr]. rewrite Htr.
      destruct (Hdom name eq_refl) as [a Ha]. rewrite Ha.
      destruct (a =? address self)%Z eqn:Ea; [now left |].
      right. split; [reflexivity |]. exists name, a. repeat split; [assumption |].
      now apply Z.eqb_neq.
    - rewrite Hlab. now left. }
  destruct (Line.children1 l) as [s |] eqn:Hs.
  - assert (Grammar.stmt s = true) as Hstmt.
    { unfold Grammar.line in Hl. rewrite Hs in Hl.
      apply andb_true_iff in Hl as [Hl _]. now apply andb_true_iff in Hl as [_ Hl]. }
    destruct (stmt_fits s) eqn:Efit.
    + destruct (stmt_word_total s self Hstmt Efit) as (base & enc & w & out & _ & _ & Hw).
      rewrite (line_pass2_stmt l s self _ _ Hs Hw). cbv zeta.
      assert (has_stmt l = true) as ->
        by (unfold has_stmt; rewrite Hs; apply bool_decide_eq_true; now eexists).
      destruct Hcheck as [-> | [-> Hbad]]; eexists _, _, _; (split; [reflexivity |]);
        (split; [reflexivity |]); (split; [reflexivity |]); [left | right; left]; now split.
    + rewrite (line_pass2_raise l s self _ _ _ Hs (stmt_word_long s self Hstmt Efit)).
      eexists _, _, _. split; [reflexivity |]. split; [reflexivity |].
      split; [reflexivity |]. right. right. split; [reflexivity |].
      unfold line_fits. now rewrite Hs.
  - rewrite (line_pass2_no_stmt l self Hs).
    assert (has_stmt l = false) as ->
      by (unfold has_stmt; rewrite Hs; apply bool_decide_eq_false; now intros [? ?]).
    destruct (truthy (pass2_label l) || truthy (pass2_comment l)) eqn:Erow.
    + cbv zeta. destruct Hcheck as [-> | [-> Hbad]]; eexists _, _, _;
        (split; [reflexivity |]); (split; [reflexivity |]); (split; [reflexivity |]);
        [left | right; left]; now split.
    + eexists _, _, _. split; [reflexivity |]. split; [reflexivity |].
      split; [reflexivity |]. left. now split.
Qed.

Lemma visit_pass2_cons (l : Line.t) (rest : Program) (self : Assembler) :
  line self = Line_pass2 ->
  visit (l :: rest) self =
  match line_pass2 l self with
  | (Val _, self', out) =>
      let '(r, self'', out') := visit rest self' in (r, self'', (out ++ out')%list)
  | (Raise e, self', out) => (Raise e, self', out)
  end.
Proof.
  intros Hline. unfold visit. cbn [for_each].
  unfold mbind at 1. unfold M_bind, bind. unfold mbind at 1. unfold M_bind, bind, get.
  rewrite Hline. cbn [app]. now destruct (line_pass2 l self) as [[[[] | e] s'] o].
Qed.

Lemma pass1_labels_mono (p : Program) (k : string) : forall addr (m : gmap string Z),
  is_Some (m !! k) -> is_Some (pass1_labels p addr m !! k).
Proof.
  induction p as [| l rest IH]; intros addr m Hk; [assumption |].
  cbn [pass1_labels]. apply IH. destruct (defined_label l) as [n |]; [| assumption].
  rewrite lookup_insert_is_Some. destruct (decide (n = k)); [now left | now right].
Qed.

(** After pass 1 every label the program defines is in the table. *)
Lemma pass1_labels_dom (p : Program) (name : string) : forall addr (m : gmap string Z) l,
  l ∈ p -> defined_label l = Some name -> is_Some (pass1_labels p addr m !! name).
Proof.
  induction p as [| l0 rest IH]; intros addr m l Hin Hdef.
  - now apply elem_of_nil in Hin.
  - cbn [pass1_labels]. apply elem_of_cons in Hin as [-> | Hin].
    + rewrite Hdef. apply pass1_labels_mono. rewrite lookup_insert_eq. now eexists.
    + now apply (IH _ _ l).
Qed.

(** Pass 2 over a tree of the grammar, when every label of the tree is in
    the table: it runs to the end, or stops on a failed assertion, or, when
    a literal has more than 4300 digits, on the [ValueError] of [int]; no
    other exception is possible. *)
Lemma visit_pass2_outcome (p : Program) : forall self,
  Grammar.program p = true -> line self = Line_pass2 ->
  (forall l name, l ∈ p -> defined_label l = Some name -> is_Some (labels self !! name)) ->
  fst (fst (visit p self)) = Val tt \/ fst (fst (visit p self)) = Raise AssertionError
  \/ (fst (fst (visit p self)) = Raise ValueError /\ program_fits p = false).
Proof.
  induction p as [| l rest IH]; intros self Hp Hline Hdom; [now left |].
  cbn [Grammar.program forallb] in Hp. apply andb_true_iff in Hp as [Hl Hrest].
  rewrite visit_pass2_cons by assumption. cbn [program_fits forallb].
  destruct (line_pass2_outcome l self Hl) as (r & self' & out & -> & Hlab & Hln & Hr).
  { intros name Hdef. apply (Hdom l); [apply list_elem_of_here | assumption]. }
  destruct Hr as [[-> _] | [[-> _] | [-> Hfit]]];
    [| now right; left | right; right; now rewrite Hfit].
  specialize (IH self' Hrest).
  destruct (visit rest self') as [[r' s''] o']. cbn [fst] in *.
  destruct IH as [IH | [IH | [IH Hfit]]].
  - congruence.
  - intros l' name Hin Hdef. rewrite Hlab. apply (Hdom l'); [| assumption].
    now apply list_elem_of_further.
  - now left.
  - right. now left.
  - right. right. split; [assumption |]. fold (program_fits rest). rewrite Hfit.
    apply andb_false_r.
Qed.

(** Pass 2 completes when every label is recorded at the address pass 2
    reaches on its line and no literal has more than 4300 digits. *)
Lemma visit_pass2_completes (q : Program) : forall self,
  Grammar.program q = true -> program_fits q = true -> line self = Line_pass2 ->
  (forall (i : nat) l name, q !! i = Some l -> defined_label l = Some name ->
     labels self !! name = Some (address self + count_stmts (take i q))) ->
  fst (fst (visit q self)) = Val tt.
Proof.
  induction q as [| l rest IH]; intros self Hq Hfits Hline Hrec; [reflexivity |].
  cbn [Grammar.program forallb] in Hq. apply andb_true_iff in Hq as [Hl Hrest].
  cbn [program_fits forallb] in Hfits. apply andb_true_iff in Hfits as [Hfit Hfits].
  rewrite visit_pass2_cons by assumption.
  destruct (line_pass2_outcome l self Hl) as (r & self' & out & -> & Hlab & Hln & Hr).
  { intros name Hdef. rewrite (Hrec 0%nat l name eq_refl Hdef). now eexists. }
  destruct Hr as [[-> Haddr] | [[-> (name & a & Hdef & Ha & Hne)] | [_ Hno]]].
  - specialize (IH self' Hrest Hfits).
    destruct (visit rest self') as [[r' s''] o']. cbn [fst] in *. apply IH; [congruence |].
    intros i l' name Hi Hdef. rewrite Hlab, (Hrec (S i) l' name Hi Hdef).
    cbn [take]. rewrite count_stmts_cons, Haddr. f_equal. destruct (has_stmt l); lia.
  - exfalso. rewrite (Hrec 0%nat l name eq_refl Hdef) in Ha.
    injection Ha as Ha. apply Hne. rewrite <- Ha. unfold count_stmts. cbn. lia.
  - congruence.
Qed.

Lemma distinct_labels_later (p : Program) (i : nat) (l : Line.t) (name : string) :
  NoDup (omap defined_label p) -> p !! i = Some l -> defined_label l = Some name ->
  Forall (fun l' => defined_label l' <> Some name) (drop (S i) p).
Proof.
  intros Hnd Hi Hdef. rewrite <- (take_drop_middle p i l Hi) in Hnd.
  rewrite omap_app in Hnd. apply NoDup_app in Hnd as (_ & _ & Hnd).
  change (omap defined_label (l :: drop (S i) p))
    with (match defined_label l with
          | Some y => y :: omap defined_label (drop (S i) p)
          | None => omap defined_label (drop (S i) p)
          end) in Hnd.
  rewrite Hdef in Hnd. apply NoDup_cons in Hnd as [Hnotin _].
  apply Forall_forall. intros l' Hl' Hdef'. apply Hnotin.
  apply list_elem_of_omap. now exists l'.
Qed.

(** A request on a tree of the grammar ends normally, or on the failed
    assertion of [line_pass2], or, when a literal has more than 4300
    digits, on the [ValueError] of [int]; never on another exception. *)
Lemma request_outcome (p : Program) (self : Assembler) :
  Grammar.program p = true ->
  fst (fst (request p self)) = Val tt \/ fst (fst (request p self)) = Raise AssertionError
  \/ (fst (fst (request p self)) = Raise ValueError /\ program_fits p = false).
Proof.
  intros Hp. rewrite request_spec. unfold pass2, mbind, M_bind, bind, modify, get, emit.
  cbn [app listing].
  match goal with |- context [visit p ?s] =>
    pose proof (visit_pass2_outcome p s Hp eq_refl) as H; destruct (visit p s) as [[r s'] o]
  end.
  cbn [fst] in *. apply H. intros l name Hin Hdef. cbn [labels set_line set_address].
  now apply (pass1_labels_dom p name 0 (labels self) l).
Qed.

(** When no label is defined twice and no literal has more than 4300
    digits, the assertion holds on every line and the request ends
    normally. *)
Lemma request_distinct_labels (p : Program) (self : Assembler) :
  Grammar.program p = true -> program_fits p = true -> NoDup (omap defined_label p) ->
  fst (fst (request p self)) = Val tt.
Proof.
  intros Hp Hfits Hnd. rewrite request_spec.
  unfold pass2, mbind, M_bind, bind, modify, get, emit. cbn [app listing].
  match goal with |- context [visit p ?s] =>
    pose proof (visit_pass2_completes p s Hp Hfits eq_refl) as H;
    destruct (visit p s) as [[r s'] o]
  end.
  cbn [fst] in *. apply H. intros i l name Hi Hdef. cbn [labels address set_line set_address].
  apply (pass1_labels_last p name i l 0 (labels self) Hi Hdef).
  now apply (distinct_labels_later p i l name).
Qed.

(** C10: in a statement of the grammar, the token [word_dstimm] hands to
    [imm] is an [IMMINT] or an [IMMLABEL] and the token [word_jump] hands
    to [target] is an [INT] or a [LABEL]; on them [imm] and [target] never
    reach their trailing [return None]: they return an [int], or, on a
    literal of more than 4300 digits, leave through the [ValueError] of
    [int]. Whatever the statement, the encoder chosen by [INSTRUCTIONS]
    returns an [int] and the word is an [int], or that [ValueError] is
    raised and no word is made. A request on a tree of the grammar never
    ends on a [TypeError]: it ends normally, on the failed assertion of
    [line_pass2], or on that [ValueError]. *)
Theorem C10_encoders_total :
  (forall (stmt : Tree.t) (self : Assembler),
      Grammar.stmt stmt = true ->
      (Tree.data stmt = "ldi" ->
         exists d x, Tree.children stmt = [d; x] /\
           (Token.type x = "IMMINT" \/ Token.type x = "IMMLABEL") /\
           ((literal_fits x = true /\ exists v out, imm x self = (Val (Some v), self, out))
            \/ (literal_fits x = false /\ imm x self = (Raise ValueError, self, []))))
      /\ (Tree.data stmt = "jp" ->
         exists t, Tree.children stmt = [t] /\
           (Token.type t = "INT" \/ Token.type t = "LABEL") /\
           ((literal_fits t = true /\ exists v out, target t self = (Val (Some v), self, out))
            \/ (literal_fits t = false /\ target t self = (Raise ValueError, self, []))))
      /\ ((stmt_fits stmt = true /\
           exists base enc w out,
             dict_item INSTRUCTIONS (Tree.data stmt) self = (Val (base, enc), self, []) /\
             enc (Tree.children stmt) self = (Val (Some w), self, out) /\
             stmt_word stmt self = (Val (base + w), self, out))
          \/ (stmt_fits stmt = false /\
              stmt_word stmt self = (Raise ValueError, self, []))))
  /\ (forall (p : Program) (self : Assembler),
      Grammar.program p = true ->
      fst (fst (request p self)) = Val tt
      \/ fst (fst (request p self)) = Raise AssertionError
      \/ (fst (fst (request p self)) = Raise ValueError /\ program_fits p = false)).
Proof.
  split; [| intros p self; apply request_outcome].
  intros stmt self H. split; [| split].
  - intros Hi. destruct stmt as [instr ops]. cbn [Tree.data Tree.children] in *. subst instr.
    unfold Grammar.stmt in H. cbn [Tree.data Tree.children] in H.
    destruct ops as [| t0 [| t1 [| t2 [| ? ?]]]]; try discriminate H.
    apply andb_true_iff in H as [_ H]. apply orb_true_iff in H as [H | H];
      apply andb_true_iff in H as [Hi Hx]; [| discriminate Hi].
    exists t0, t1. split; [reflexivity |]. split; [apply imm_tok_inv in Hx; tauto |].
    destruct (literal_fits t1) eqn:Efit.
    + left. split; [reflexivity |]. now apply imm_total.
    + right. split; [reflexivity |]. now apply imm_long.
  - intros Hi. destruct stmt as [instr ops]. cbn [Tree.data Tree.children] in *. subst instr.
    unfold Grammar.stmt in H. cbn [Tree.data Tree.children] in H.
    destruct ops as [| t0 [| t1 [| t2 [| ? ?]]]]; try discriminate H.
    + apply andb_true_iff in H as [_ Ht].
      exists t0. split; [reflexivity |]. split; [apply target_tok_inv in Ht; tauto |].
      destruct (literal_fits t0) eqn:Efit.
      * left. split; [reflexivity |]. now apply target_total.
      * right. split; [reflexivity |]. now apply target_long.
    + apply andb_true_iff in H as [_ H]. apply orb_true_iff in H as [H | H];
        apply andb_true_iff in H as [Hi _]; discriminate Hi.
  - destruct (stmt_fits stmt) eqn:Efit.
    + left. split; [reflexivity |]. now apply stmt_word_total.
    + right. split; [reflexivity |]. now apply stmt_word_long.
Qed.

(** C10 at [LD r1,#nosuch] and at the default program. *)
Lemma C10_encoders_total_witness :
  (exists d x, Tree.children Sample.ld_nosuch = [d; x] /\
     (Token.type x = "IMMINT" \/ Token.type x = "IMMLABEL") /\
     ((literal_fits x = true /\ exists v out, imm x init = (Val (Some v), init, out))
      \/ (literal_fits x = false /\ imm x init = (Raise ValueError, init, []))))
  /\ (exists base enc w out,
       dict_item INSTRUCTIONS (Tree.data Sample.ld_nosuch) init = (Val (base, enc), init, []) /\
       enc (Tree.children Sample.ld_nosuch) init = (Val (Some w), init, out) /\
       stmt_word Sample.ld_nosuch init = (Val (base + w), init, out))
  /\ (fst (fst (request Sample.defaulttree init)) = Val tt
      \/ fst (fst (request Sample.defaulttree init)) = Raise AssertionError
      \/ (fst (fst (request Sample.defaulttree init)) = Raise ValueError
          /\ program_fits Sample.defaulttree = false)).
Proof.
  destruct C10_encoders_total as [Hstmt Hprog].
  destruct (Hstmt Sample.ld_nosuch init eq_refl) as (Hldi & _ & Hword).
  split; [exact (Hldi eq_refl) |]. split.
  - destruct Hword as [[_ Hword] | [Hno _]]; [exact Hword | discriminate Hno].
  - apply (Hprog Sample.defaulttree init). reflexivity.
Defined.

(** ** Where the assembler departs from its description *)

(** C2, at [LD r0,r0 / x: LD r1,#x]: the tree is one of the grammar and
    pass 1 records [x] at address 1, yet the immediate [#x] is looked up as
    ["#x"], found missing and replaced by 0: the word is 7100 where
    7000 + 1*100 + 1 = 7101 is due, and an unknown-label diagnostic is
    printed. *)
Theorem C2_immediate_label_is_not_resolved :
  Grammar.program Sample.ld_label = true
  /\ fst (fst (request Sample.ld_label init)) = Val tt
  /\ labels (snd (fst (request Sample.ld_label init))) !! "x" = Some 1
  /\ listing (snd (fst (request Sample.ld_label init)))
     = header
       ++ row 0 (Some 0) "" "ld" ["r0"; "r0"] ""
       ++ row 1 (Some 7100) "x" "ldi" ["r1"; "#x"] ""
  /\ diagnostics (snd (request Sample.ld_label init))
     = ["2:10 Error: unknown label #x" ++ nl].
Proof. repeat split; vm_compute; reflexivity. Qed.

(** C5, at [a: LD r0,r0 / a: LD r0,r0]: the tree is one of the grammar;
    pass 1 records [a] at 0 and then at 1, so in pass 2 the assertion
    fails on the first line, after its row has been appended. *)
Theorem C5_assertion_fails_on_repeated_label :
  Grammar.program Sample.twice_a = true
  /\ fst (fst (request Sample.twice_a init)) = Raise AssertionError
  /\ labels (snd (fst (request Sample.twice_a init))) !! "a" = Some 1
  /\ address (snd (fst (request Sample.twice_a init))) = 0
  /\ listing (snd (fst (request Sample.twice_a init)))
     = header ++ row 0 (Some 0) "a" "ld" ["r0"; "r0"] "".
Proof. repeat split; vm_compute; reflexivity. Qed.

(** C6, at [JP foo] requested after [LD r0,r0 / foo: LD r0,r0] on the
    same assembler: [clear] resets the listing only, the label [foo] of the
    earlier request is still in the table, and the jump assembles to 7901
    without a diagnostic, where a new assembler gives 7900 and reports the
    label as unknown. *)
Theorem C6_labels_survive_clear :
  let used := snd (fst (request Sample.defines_foo init)) in
  labels used !! "foo" = Some 1
  /\ labels (snd (fst (clear used))) !! "foo" = Some 1
  /\ listing (snd (fst (request Sample.jumps_to_foo used)))
     = header ++ row 0 (Some 7901) "" "jp" ["foo"] ""
  /\ diagnostics (snd (request Sample.jumps_to_foo used)) = []
  /\ listing (snd (fst (request Sample.jumps_to_foo init)))
     = header ++ row 0 (Some 7900) "" "jp" ["foo"] ""
  /\ diagnostics (snd (request Sample.jumps_to_foo init))
     = ["1:4 Error: unknown label 'foo'" ++ nl].
Proof. cbv zeta. repeat split; vm_compute; reflexivity. Qed.

(** * Further properties of the assembler *)

(** ** The symbol table across requests *)

Lemma count_stmts_take_le (p : Program) (i : nat) :
  0 <= count_stmts (take i p) <= count_stmts p.
Proof.
  revert i. induction p as [| l rest IH]; intros i.
  - rewrite take_nil. unfold count_stmts. cbn. lia.
  - destruct i as [| i]; cbn [take].
    + rewrite count_stmts_cons. change (count_stmts []) with 0.
      destruct (has_stmt l); unfold count_stmts; lia.
    + rewrite !count_stmts_cons. specialize (IH i). destruct (has_stmt l); lia.
Qed.

(** The entry pass 1 leaves for a name: what the table held when no line
    defines the name, the address of some defining line otherwise. *)
Lemma pass1_labels_lookup (p : Program) (name : string) : forall addr (m : gmap string Z),
  (Forall (fun l => defined_label l <> Some name) p /\
   pass1_labels p addr m !! name = m !! name)
  \/ exists (i : nat) l,
       p !! i = Some l /\ defined_label l = Some name /\
       Forall (fun l' => defined_label l' <> Some name) (drop (S i) p) /\
       pass1_labels p addr m !! name = Some (addr + count_stmts (take i p)).
Proof.
  induction p as [| l0 rest IH]; intros addr m; [left; split; [constructor | reflexivity] |].
  cbn [pass1_labels].
  destruct (IH (if has_stmt l0 then addr + 1 else addr)
              (match defined_label l0 with
               | Some n => <[n:=addr]> m
               | None => m
               end)) as [[Hnone Hlook] | (i & l & Hi & Hdef & Hlater & Hlook)].
  - destruct (decide (defined_label l0 = Some name)) as [Hd | Hd].
    + right. exists 0%nat, l0. split; [reflexivity |]. split; [assumption |].
      split; [assumption |]. rewrite Hlook, Hd, lookup_insert_eq.
      unfold count_stmts. cbn. f_equal. lia.
    + left. split; [now constructor |]. rewrite Hlook.
      destruct (defined_label l0) as [n |]; [| reflexivity].
      apply lookup_insert_ne. congruence.
  - right. exists (S i), l. split; [assumption |]. split; [assumption |].
    split; [assumption |]. rewrite Hlook. cbn [take]. rewrite count_stmts_cons.
    f_equal. destruct (has_stmt l0); lia.
Qed.

Lemma request_labels (p : Program) (self : Assembler) :
  labels (snd (fst (request p self))) = pass1_labels p 0 (labels self).
Proof. now rewrite request_spec, pass2_keeps_labels. Qed.

(** X1: pass 1 of [assemble] cannot fail and prints nothing, whatever the
    tree; it leaves the listing as it was and ends with the address
    counter at the number of lines that carry a statement. *)
Theorem X1_pass1_silent (p : Program) (self : Assembler) :
  exists self1,
    pass1 p self = (Val tt, self1, []) /\
    listing self1 = listing self /\
    address self1 = count_stmts p /\
    0 <= address self1 <= Z.of_nat (List.length p).
Proof.
  rewrite pass1_spec. eexists. split; [reflexivity |]. cbn [listing address].
  split; [reflexivity |]. split; [reflexivity |].
  unfold count_stmts. pose proof (length_filter (fun l => has_stmt l = true) p). lia.
Qed.

(** X2: after a request (clear, pass 1, pass 2), whether it ended normally
    or not, the table holds for every name either the address of the last
    line of the tree that defines it (the number of statements before that
    line) or, when no line defines it, exactly what it held before the
    request: old entries are never removed. *)
Theorem X2_table_after_request (p : Program) (self : Assembler) (name : string) :
  let after := labels (snd (fst (request p self))) in
  (forall (i : nat) l,
      p !! i = Some l -> defined_label l = Some name ->
      Forall (fun l' => defined_label l' <> Some name) (drop (S i) p) ->
      after !! name = Some (count_stmts (take i p)))
  /\ (Forall (fun l => defined_label l <> Some name) p ->
      after !! name = labels self !! name)
  /\ (forall a, after !! name = Some a ->
      labels self !! name = Some a \/ 0 <= a <= count_stmts p).
Proof.
  cbv zeta. rewrite request_labels. repeat split.
  - intros i l Hi Hdef Hlater.
    now rewrite (pass1_labels_last p name i l 0 (labels self) Hi Hdef Hlater).
  - apply pass1_labels_other.
  - intros a Ha.
    destruct (pass1_labels_lookup p name 0 (labels self))
      as [[_ Hlook] | (i & l & _ & _ & _ & Hlook)]; rewrite Hlook in Ha.
    + now left.
    + right. injection Ha as <-. pose proof (count_stmts_take_le p i). lia.
Qed.

(** X2 at [start: JP end / mid: ... / end: ...], assembled on an
    assembler that still holds [foo] from an earlier request. *)
Lemma X2_table_after_request_witness :
  let used := snd (fst (request Sample.defines_foo init)) in
  let after := labels (snd (fst (request Sample.forward_jump used))) in
  after !! "end" = Some (count_stmts (take 2 Sample.forward_jump))
  /\ after !! "foo" = labels used !! "foo".
Proof.
  cbv zeta.
  split.
  - apply (proj1 (X2_table_after_request Sample.forward_jump
                    (snd (fst (request Sample.defines_foo init))) "end") 2%nat
             (Line.mk (Some (Sample.tk "LABELC" "end:" 3 2))
                (Some (Tree.mk "ldi" [Sample.tk "REG" "r2" 3 10; Sample.tk "IMMINT" "#1" 3 13]))
                None));
      [reflexivity | reflexivity | constructor].
  - apply (proj1 (proj2 (X2_table_after_request Sample.forward_jump
                           (snd (fst (request Sample.defines_foo init))) "foo"))).
    repeat constructor; intros H; vm_compute in H; discriminate H.
Defined.

(** X3: a request reads the assembler it runs on through the symbol table
    only: two assemblers with the same table give the same outcome, the
    same final object and the same output, whatever their listing, address
    counter and [line] binding were. *)
Theorem X3_request_reads_table_only (p : Program) (self self' : Assembler) :
  labels self = labels self' -> request p self = request p self'.
Proof. intros H. now rewrite !request_spec, H. Qed.

(** X3 at the default program, on a fresh assembler and on one that has
    already assembled a program without labels. *)
Lemma X3_request_reads_table_only_witness :
  request Sample.defaulttree (snd (fst (request Sample.jumps_to_foo init)))
  = request Sample.defaulttree init.
Proof.
  apply (X3_request_reads_table_only Sample.defaulttree
           (snd (fst (request Sample.jumps_to_foo init))) init).
  vm_compute. reflexivity.
Defined.

(** X4: when the tree defines every name the table already holds, what is
    left of earlier requests has no effect: the request gives exactly the
    outcome, listing and output it gives on a new assembler. *)
Theorem X4_redefined_labels_hide_the_past (p : Program) (self : Assembler) :
  dom (labels self) ⊆ (list_to_set (omap defined_label p) : gset string) ->
  request p self = request p init.
Proof.
  intros Hdom. rewrite !request_spec. do 2 f_equal. cbn [labels init].
  rewrite (pass1_labels_union p 0 (labels self)), (pass1_labels_union p 0 ∅).
  rewrite (right_id_L ∅ (∪)). apply map_eq. intros k. rewrite lookup_union.
  destruct (pass1_labels p 0 ∅ !! k) as [a |] eqn:Ea;
    [destruct (labels self !! k); reflexivity |].
  destruct (labels self !! k) as [b |] eqn:Eb; [| reflexivity]. exfalso.
  assert (k ∈ dom (labels self)) as Hk
    by (apply elem_of_dom; rewrite Eb; eexists; reflexivity).
  apply Hdom in Hk. apply elem_of_list_to_set, list_elem_of_omap in Hk as (l & Hl & Hdef).
  destruct (pass1_labels_dom p k 0 ∅ l Hl Hdef) as [v Hv]. congruence.
Qed.

(** X4 at [start: JP end / ...] assembled a second time. *)
Lemma X4_redefined_labels_hide_the_past_witness :
  request Sample.forward_jump (snd (fst (request Sample.forward_jump init)))
  = request Sample.forward_jump init.
Proof.
  apply (X4_redefined_labels_hide_the_past Sample.forward_jump
           (snd (fst (request Sample.forward_jump init)))).
  apply (bool_decide_unpack _). vm_compute. exact I.
Defined.

(** ** When a request ends normally *)

(** A request, spelled out: the header is printed, then pass 2 visits the
    tree from address 0 with the table pass 1 has built. *)
Lemma request_visit (p : Program) (self : Assembler) :
  request p self =
  let '(r, s, o) :=
    visit p (mkAssembler (pass1_labels p 0 (labels self)) header 0 Line_pass2) in
  (r, s, Stdout header :: o).
Proof.
  rewrite request_spec. unfold pass2, mbind, M_bind, bind, modify, get, emit.
  cbn [app listing set_address set_line labels address line].
  now destruct (visit p _) as [[[[] | e] s] o].
Qed.

(** On a line of the grammar whose literals have at most 4300 digits,
    [line_pass2] ends as its assertion does; the table and the [line]
    binding stay, and the address advances by one exactly when the line
    has a statement and the assertion held. *)
Lemma line_pass2_check (l : Line.t) (self : Assembler) :
  Grammar.line l = true -> line_fits l = true ->
  exists self' out,
    line_pass2 l self = (check_label (pass2_label l) self, self', out) /\
    labels self' = labels self /\ line self' = line self /\
    (check_label (pass2_label l) self = Val tt ->
     address self' = (if has_stmt l then address self + 1 else address self)).
Proof.
  intros Hl Hfit. destruct (Line.children1 l) as [s |] eqn:Hs.
  - assert (Grammar.stmt s = true) as Hstmt.
    { unfold Grammar.line in Hl. rewrite Hs in Hl.
      apply andb_true_iff in Hl as [Hl _]. now apply andb_true_iff in Hl as [_ Hl]. }
    assert (stmt_fits s = true) as Hsfit by (unfold line_fits in Hfit; now rewrite Hs in Hfit).
    destruct (stmt_word_total s self Hstmt Hsfit) as (base & enc & w & out & _ & _ & Hw).
    rewrite (line_pass2_stmt l s self _ _ Hs Hw). cbv zeta.
    assert (has_stmt l = true) as ->
      by (unfold has_stmt; rewrite Hs; apply bool_decide_eq_true; now eexists).
    destruct (check_label (pass2_label l) self) as [[] | e]; eexists _, _;
      (split; [reflexivity |]); (split; [reflexivity |]); (split; [reflexivity |]);
      [reflexivity | discriminate].
  - rewrite (line_pass2_no_stmt l self Hs).
    assert (has_stmt l = false) as ->
      by (unfold has_stmt; rewrite Hs; apply bool_decide_eq_false; now intros [? ?]).
    destruct (truthy (pass2_label l) || truthy (pass2_comment l)) eqn:Erow.
    + cbv zeta. eexists _, _. repeat split; reflexivity.
    + apply orb_false_iff in Erow as [El _].
      assert (check_label (pass2_label l) self = Val tt) as ->
        by (unfold check_label; now rewrite El).
      eexists _, _. repeat split; reflexivity.
Qed.

(** On a line of the grammar with a literal of more than 4300 digits,
    [line_pass2] raises the [ValueError] of [int] before it prints or
    changes anything. *)
Lemma line_pass2_long (l : Line.t) (self : Assembler) :
  Grammar.line l = true -> line_fits l = false ->
  line_pass2 l self = (Raise ValueError, self, []).
Proof.
  intros Hl Hfit. unfold line_fits in Hfit.
  destruct (Line.children1 l) as [s |] eqn:Hs; [| discriminate Hfit].
  assert (Grammar.stmt s = true) as Hstmt.
  { unfold Grammar.line in Hl. rewrite Hs in Hl.
    apply andb_true_iff in Hl as [Hl _]. now apply andb_true_iff in Hl as [_ Hl]. }
  exact (line_pass2_raise l s self _ _ _ Hs (stmt_word_long s self Hstmt Hfit)).
Qed.

Lemma check_label_Val (name : string) (self : Assembler) :
  truthy name = true ->
  (check_label name self = Val tt <-> labels self !! name = Some (address self)).
Proof.
  intros Htr. unfold check_label. rewrite Htr. split.
  - destruct (labels self !! name) as [a |]; [| discriminate].
    destruct (a =? address self)%Z eqn:E; [| discriminate].
    apply Z.eqb_eq in E. now subst.
  - intros ->. now rewrite Z.eqb_refl.
Qed.

(** Pass 2 over a tree of the grammar ends normally exactly when no
    literal has more than 4300 digits and every label of the tree is
    recorded at the address pass 2 has reached on the label's line; it then
    leaves the address advanced by the number of statements. *)
Lemma visit_pass2_Val (q : Program) : forall self,
  Grammar.program q = true -> line self = Line_pass2 ->
  (fst (fst (visit q self)) = Val tt <->
   program_fits q = true /\
   forall (i : nat) l name, q !! i = Some l -> defined_label l = Some name ->
     labels self !! name = Some (address self + count_stmts (take i q)))
  /\ (fst (fst (visit q self)) = Val tt ->
      address (snd (fst (visit q self))) = address self + count_stmts q).
Proof.
  induction q as [| l rest IH]; intros self Hq Hline.
  - split; [split; [intros _; split; [reflexivity |]; intros i l name Hi; discriminate Hi
                   | reflexivity] |].
    intros _. cbn. unfold count_stmts. cbn. lia.
  - cbn [Grammar.program forallb] in Hq. apply andb_true_iff in Hq as [Hl Hrest].
    rewrite visit_pass2_cons by assumption. cbn [program_fits forallb].
    fold (program_fits rest).
    destruct (line_fits l) eqn:Efit;
      [| rewrite (line_pass2_long l self Hl Efit); cbn [fst snd andb];
         split; [split; [discriminate | intros [Hno _]; discriminate Hno] | discriminate]].
    destruct (line_pass2_check l self Hl Efit) as (self' & out & -> & Hlab & Hln & Haddr).
    pose proof (pass2_label_defined l Hl) as Hname. cbn [andb].
    destruct (check_label (pass2_label l) self) as [[] | e] eqn:Echeck.
    + specialize (Haddr eq_refl).
      assert (line self' = Line_pass2) as Hline' by congruence.
      destruct (IH self' Hrest Hline') as [IHiff IHaddr].
      destruct (visit rest self') as [[r' s''] o']. cbn [fst snd] in *.
      rewrite count_stmts_cons. split; [split |].
      * intros Hr. destruct (proj1 IHiff Hr) as [Hfits Hall]. split; [assumption |].
        intros i l' name Hi Hdef. destruct i as [| i].
        { injection Hi as <-. rewrite Hdef in Hname. destruct Hname as [Hpl Htr].
          rewrite Hpl in Echeck. apply (check_label_Val name self Htr) in Echeck.
          rewrite Echeck. unfold count_stmts. cbn. f_equal. lia. }
        { cbn [take]. rewrite count_stmts_cons, <- Hlab.
          rewrite (Hall i l' name Hi Hdef), Haddr.
          f_equal. destruct (has_stmt l); lia. }
      * intros [Hfits Hall]. apply IHiff. split; [assumption |]. intros i l' name Hi Hdef.
        rewrite Hlab, (Hall (S i) l' name Hi Hdef). cbn [take].
        rewrite count_stmts_cons, Haddr. f_equal. destruct (has_stmt l); lia.
      * intros Hr. rewrite (IHaddr Hr), Haddr. destruct (has_stmt l); lia.
    + cbn [fst snd]. split; [split; [discriminate |] | discriminate].
      intros [_ Hall]. exfalso.
      destruct (defined_label l) as [name |] eqn:Hdef.
      * destruct Hname as [Hpl Htr]. rewrite Hpl in Echeck.
        assert (check_label name self = Val tt) as Hok.
        { apply (check_label_Val name self Htr).
          rewrite (Hall 0%nat l name eq_refl Hdef). unfold count_stmts. cbn. f_equal. lia. }
        congruence.
      * rewrite Hname in Echeck. discriminate Echeck.
Qed.

(** A request on a tree of the grammar ends normally exactly when no
    literal has more than 4300 digits and pass 1 has left every label at
    the address of each of its lines. *)
Lemma request_Val (p : Program) (self : Assembler) :
  Grammar.program p = true ->
  (fst (fst (request p self)) = Val tt <->
   program_fits p = true /\
   forall (i : nat) l name, p !! i = Some l -> defined_label l = Some name ->
     pass1_labels p 0 (labels self) !! name = Some (count_stmts (take i p)))
  /\ (fst (fst (request p self)) = Val tt ->
      address (snd (fst (request p self))) = count_stmts p).
Proof.
  intros Hp. rewrite request_visit.
  destruct (visit_pass2_Val p
              (mkAssembler (pass1_labels p 0 (labels self)) header 0 Line_pass2) Hp eq_refl)
    as [Hiff Haddr].
  destruct (visit p _) as [[r s] o]. cbn [fst snd labels address] in *.
  split; [| assumption]. rewrite Hiff.
  split; intros [Hfits H]; (split; [assumption |]); intros i l name Hi Hdef.
  - rewrite (H i l name Hi Hdef). f_equal; lia.
  - rewrite (H i l name Hi Hdef). f_equal; lia.
Qed.

(** X5: on a tree of the grammar in which no label is defined twice and no
    literal has more than 4300 digits, a request ends normally; and
    whenever a request on a tree of the grammar ends normally, pass 2
    leaves the address counter where pass 1 left it: at the number of
    statements. *)
Theorem X5_passes_agree (p : Program) (self : Assembler) :
  Grammar.program p = true ->
  (program_fits p = true -> NoDup (omap defined_label p) ->
   fst (fst (request p self)) = Val tt)
  /\ (fst (fst (request p self)) = Val tt ->
      address (snd (fst (request p self))) = count_stmts p
      /\ address (snd (fst (pass1 p self))) = count_stmts p).
Proof.
  intros Hp. split.
  - intros Hfits Hnd. apply (proj1 (request_Val p self Hp)). split; [assumption |].
    intros i l name Hi Hdef.
    rewrite (pass1_labels_last p name i l 0 (labels self) Hi Hdef); [f_equal; lia |].
    now apply (distinct_labels_later p i l name).
  - intros Hr. split; [now apply (proj2 (request_Val p self Hp)) |].
    now rewrite pass1_spec.
Qed.

(** X5 at the default program. *)
Lemma X5_passes_agree_witness :
  fst (fst (request Sample.defaulttree init)) = Val tt
  /\ (fst (fst (request Sample.defaulttree init)) = Val tt ->
      address (snd (fst (request Sample.defaulttree init))) = count_stmts Sample.defaulttree
      /\ address (snd (fst (pass1 Sample.defaulttree init))) = count_stmts Sample.defaulttree).
Proof.
  destruct (X5_passes_agree Sample.defaulttree init eq_refl) as [Hok Haddr].
  split; [| exact Haddr].
  apply Hok; [reflexivity |]. apply (bool_decide_unpack _). vm_compute. exact I.
Defined.

(** X6: a request on a tree of the grammar ends normally exactly when no
    literal has more than 4300 digits and all the lines that define one
    name stand at one address (the same number of statements precedes
    them); otherwise it ends on the failed assertion of [line_pass2] or,
    with such a literal in the tree, on the [ValueError] of [int]. *)
Theorem X6_assertion_holds_iff (p : Program) (self : Assembler) :
  Grammar.program p = true ->
  (fst (fst (request p self)) = Val tt <->
   program_fits p = true /\
   forall (i j : nat) li lj name,
     p !! i = Some li -> p !! j = Some lj ->
     defined_label li = Some name -> defined_label lj = Some name ->
     count_stmts (take i p) = count_stmts (take j p))
  /\ (fst (fst (request p self)) <> Val tt ->
      fst (fst (request p self)) = Raise AssertionError
      \/ (fst (fst (request p self)) = Raise ValueError /\ program_fits p = false)).
Proof.
  intros Hp. split.
  - rewrite (proj1 (request_Val p self Hp)).
    split; intros [Hfits H]; (split; [assumption |]).
    + intros i j li lj name Hi Hj Hdi Hdj.
      pose proof (H i li name Hi Hdi) as Ei. pose proof (H j lj name Hj Hdj) as Ej.
      congruence.
    + intros i l name Hi Hdef.
      destruct (pass1_labels_lookup p name 0 (labels self))
        as [[Hnone _] | (j & lj & Hj & Hdj & _ & Hlook)].
      * exfalso. rewrite Forall_forall in Hnone.
        apply (Hnone l); [now apply list_elem_of_lookup_2 in Hi | assumption].
      * rewrite Hlook. f_equal. rewrite (H i j l lj name Hi Hj Hdef Hdj). lia.
  - intros Hne. destruct (request_outcome p self Hp) as [H | H]; [contradiction | assumption].
Qed.

(** X6 at [a: LD r0,r0 / a: LD r0,r0]: the two lines of [a] stand at
    addresses 0 and 1 and the request does not end normally. *)
Lemma X6_assertion_holds_iff_witness :
  fst (fst (request Sample.twice_a init)) <> Val tt
  /\ fst (fst (request Sample.twice_a init)) = Raise AssertionError.
Proof.
  destruct (X6_assertion_holds_iff Sample.twice_a init eq_refl) as [Hiff Hfail].
  assert (fst (fst (request Sample.twice_a init)) <> Val tt) as Hne.
  { intros Hok. destruct (proj1 Hiff Hok) as [_ Hall].
    pose proof (Hall 0%nat 1%nat _ _ "a" eq_refl eq_refl eq_refl eq_refl) as H.
    vm_compute in H. discriminate H. }
  split; [exact Hne |].
  destruct (Hfail Hne) as [H | [_ Hno]]; [exact H | discriminate Hno].
Defined.

(** ** What is printed and what is listed *)

Lemma append_nil_r (s : string) : s ++ "" = s.
Proof.
  induction s as [| c r IH]; [reflexivity |].
  change (String c (r ++ "") = String c r). now f_equal.
Qed.

Lemma append_assoc (a b c : string) : (a ++ b) ++ c = a ++ (b ++ c).
Proof.
  induction a as [| x r IH]; [reflexivity |].
  change (String x ((r ++ b) ++ c) = String x (r ++ (b ++ c))). now f_equal.
Qed.

Lemma stdout_text_app (o o' : list event) :
  stdout_text (o ++ o')%list = stdout_text o ++ stdout_text o'.
Proof.
  induction o as [| [t | t] rest IH]; cbn [app stdout_text]; [reflexivity | | assumption].
  now rewrite IH, append_assoc.
Qed.

Lemma only_diagnostics_ret {A} (a : A) : only_diagnostics (ret a).
Proof. now intros self. Qed.

Lemma only_diagnostics_mret {A} (a : A) : only_diagnostics (mret a : M A).
Proof. now intros self. Qed.

Lemma only_diagnostics_raise {A} (e : exn) : only_diagnostics (raise e : M A).
Proof. now intros self. Qed.

Lemma only_diagnostics_lift {A} (r : res A) : only_diagnostics (lift r).
Proof. now intros self. Qed.

Lemma only_diagnostics_get {A} (attr : Assembler -> A) : only_diagnostics (get attr).
Proof. now intros self. Qed.

Lemma only_diagnostics_error (token : Token.t) (msg : string) :
  only_diagnostics (error token msg).
Proof. now intros self. Qed.

Lemma only_diagnostics_item {A} (xs : list A) (i : nat) : only_diagnostics (item xs i).
Proof. unfold item. now destruct (xs !! i); intros self. Qed.

Lemma only_diagnostics_bind {A C} (m : M A) (k : A -> M C) :
  only_diagnostics m -> (forall a, only_diagnostics (k a)) -> only_diagnostics (m ≫= k).
Proof.
  intros Hm Hk self. unfold mbind, M_bind, bind.
  specialize (Hm self). destruct (m self) as [[[a | e] s'] o]; cbn [fst snd] in *.
  - specialize (Hk a s'). destruct (k a s') as [[r s''] o']. cbn [fst snd] in *.
    now rewrite stdout_text_app, Hm, Hk.
  - assumption.
Qed.

Ltac only_diagnostics_step :=
  first
    [ apply only_diagnostics_error
    | apply only_diagnostics_bind; [| intros ?]
    | apply only_diagnostics_ret | apply only_diagnostics_mret
    | apply only_diagnostics_raise | apply only_diagnostics_lift
    | apply only_diagnostics_get | apply only_diagnostics_item
    | match goal with
      | |- only_diagnostics (if ?b then _ else _) => destruct b
      | |- only_diagnostics (match ?x with _ => _ end) => destruct x
      end ].

Lemma reg_only_diagnostics (token : Token.t) : only_diagnostics (reg token).
Proof. unfold reg. repeat only_diagnostics_step. Qed.

Lemma imm_only_diagnostics (token : Token.t) : only_diagnostics (imm token).
Proof. unfold imm. repeat only_diagnostics_step. Qed.

Lemma target_only_diagnostics (token : Token.t) : only_diagnostics (target token).
Proof. unfold target. repeat only_diagnostics_step. Qed.

Lemma only_diagnostics_dict_item {V C} (d : list (string * V)) (key : string)
    (k : V -> M C) :
  Forall (fun kv => only_diagnostics (k (snd kv))) d ->
  only_diagnostics (dict_item d key ≫= k).
Proof.
  intros Hd. induction Hd as [| [k0 v] rest Hv _ IH]; cbn [dict_item].
  - now intros self.
  - destruct (String.eqb k0 key); [| assumption].
    intros self. unfold mbind, M_bind, bind, ret.
    specialize (Hv self). cbn [snd] in Hv.
    now destruct (k v self) as [[r s''] o'].
Qed.

Lemma stmt_word_only_diagnostics (stmt : Tree.t) : only_diagnostics (stmt_word stmt).
Proof.
  unfold stmt_word. apply only_diagnostics_dict_item. unfold INSTRUCTIONS.
  repeat (apply Forall_cons; split;
    [cbn [fst snd]; unfold word_3addr, word_2addr, word_dstimm, word_jump;
     repeat (apply reg_only_diagnostics || apply imm_only_diagnostics
             || apply target_only_diagnostics || only_diagnostics_step) |]).
  constructor.
Qed.

(** Whatever the line and whatever the outcome, what [line_pass2] appends
    to the listing is what it prints on [stdout]. *)
Lemma line_pass2_listing (l : Line.t) (self : Assembler) :
  listing (snd (fst (line_pass2 l self)))
  = listing self ++ stdout_text (snd (line_pass2 l self)).
Proof.
  destruct (Line.children1 l) as [s |] eqn:Hs.
  - pose proof (stmt_word_pure s self) as Hpure.
    pose proof (stmt_word_only_diagnostics s self) as Hquiet.
    destruct (stmt_word s self) as [[[w | e] s1] o1] eqn:Hw;
      unfold id in Hpure; cbn [fst snd] in Hpure, Hquiet; subst s1.
    + rewrite (line_pass2_stmt l s self w o1 Hs Hw). cbv zeta.
      destruct (check_label (pass2_label l) self); cbn [fst snd listing set_address set_listing];
        rewrite stdout_text_app, Hquiet; cbn [stdout_text append];
        now rewrite append_nil_r.
    + rewrite (line_pass2_raise l s self e self o1 Hs Hw). cbn [fst snd].
      now rewrite Hquiet, append_nil_r.
  - rewrite (line_pass2_no_stmt l self Hs).
    destruct (truthy (pass2_label l) || truthy (pass2_comment l)); cbv zeta;
      cbn [fst snd listing set_listing stdout_text]; now rewrite !append_nil_r.
Qed.

Lemma visit_pass2_listing (p : Program) : forall self,
  line self = Line_pass2 ->
  listing (snd (fst (visit p self))) = listing self ++ stdout_text (snd (visit p self)).
Proof.
  induction p as [| l rest IH]; intros self Hline.
  - cbn. now rewrite append_nil_r.
  - rewrite visit_pass2_cons by assumption.
    pose proof (line_pass2_listing l self) as Hl.
    pose proof (line_pass2_keeps l self) as Hk.
    destruct (line_pass2 l self) as [[[[] | e] s'] o]; cbn [fst snd] in *.
    + assert (line s' = Line_pass2) as Hline'
        by (unfold table_and_line in Hk; congruence).
      specialize (IH s' Hline').
      destruct (visit rest s') as [[r s''] o']. cbn [fst snd] in *.
      now rewrite IH, Hl, stdout_text_app, append_assoc.
    + assumption.
Qed.

(** X7: whatever the tree and however the run ends, [assemble] prints on
    [stdout] exactly the listing it leaves in [self.listing]: the listing
    it found followed by the rows of this run. After [clear], that listing
    starts with the two header lines. *)
Theorem X7_stdout_is_the_listing (p : Program) (self : Assembler) :
  stdout_text (snd (assemble p self)) = listing (snd (fst (assemble p self)))
  /\ (exists rows, listing (snd (fst (assemble p self))) = listing self ++ rows)
  /\ stdout_text (snd (request p self)) = listing (snd (fst (request p self)))
  /\ exists rows, listing (snd (fst (request p self))) = header ++ rows.
Proof.
  assert (forall s, stdout_text (snd (pass2 p s)) = listing (snd (fst (pass2 p s)))
                    /\ exists rows, listing (snd (fst (pass2 p s))) = listing s ++ rows)
    as Hpass2.
  { intros s. unfold pass2, mbind, M_bind, bind, modify, get, emit. cbn [app].
    pose proof (visit_pass2_listing p (set_line Line_pass2 (set_address (fun _ => 0) s))
                  eq_refl) as H.
    destruct (visit p _) as [[r s'] o]. cbn [fst snd listing set_line set_address] in *.
    cbn [stdout_text]. split; [now rewrite H | now exists (stdout_text o)]. }
  assert (forall s, assemble p s
                    = pass2 p (mkAssembler (pass1_labels p 0 (labels s)) (listing s)
                                 (count_stmts p) Line_pass1)) as Hasm.
  { intros s. rewrite assemble_passes. unfold mbind at 1. unfold M_bind, bind.
    rewrite pass1_spec. cbn [app]. now destruct (pass2 p _) as [[r s'] o]. }
  split; [| split; [| split]].
  - rewrite Hasm. apply Hpass2.
  - rewrite Hasm. apply (Hpass2 (mkAssembler _ (listing self) _ _)).
  - rewrite request_spec. apply Hpass2.
  - rewrite request_spec. apply (Hpass2 (mkAssembler _ header _ _)).
Qed.

(** ** What encoding never does *)

(** X8: the encoders only read: whatever the token or the statement, well
    formed or not, and whether they return or raise, [reg], [imm], [target]
    and the word computation of [line_pass2] leave every attribute of the
    assembler as it was; and no line of pass 2, hence no run of pass 2,
    ever writes the symbol table. *)
Theorem X8_encoding_only_reads :
  (forall token self,
      snd (fst (reg token self)) = self /\ snd (fst (imm token self)) = self
      /\ snd (fst (target token self)) = self)
  /\ (forall stmt self, snd (fst (stmt_word stmt self)) = self)
  /\ (forall l self, labels (snd (fst (line_pass2 l self))) = labels self)
  /\ (forall p self, labels (snd (fst (pass2 p self))) = labels self).
Proof.
  split; [| split; [| split]].
  - intros token self. split; [apply (reg_pure token self) |].
    split; [apply (imm_pure token self) | apply (target_pure token self)].
  - intros stmt self. apply (stmt_word_pure stmt self).
  - intros l self. pose proof (line_pass2_keeps l self) as H.
    unfold table_and_line in H. now inversion H.
  - intros p self. apply pass2_keeps_labels.
Qed.

(** ** Statements that share a word *)

(** [reg] returns or raises; it prints nothing and keeps [self]. *)
Lemma reg_result (token : Token.t) (self : Assembler) :
  exists r, reg token self = (r, self, []) /\ forall self', reg token self' = (r, self', []).
Proof.
  unfold reg. destruct (match_pc (Token.value token)); [now eexists |].
  unfold lift, mbind, M_bind, bind.
  destruct (item1 (Token.value token)) as [d | e]; [| now eexists].
  destruct (int d) as [v | e]; now eexists.
Qed.

Lemma reg_pc_prefix (token : Token.t) (self : Assembler) :
  match_pc (Token.value token) = true -> reg token self = (Val 9, self, []).
Proof. intros H. unfold reg. now rewrite H. Qed.

(** X9: [JP n] with a literal n assembles to the word of [LD PC,#n]: when
    [int] accepts n (a numeral of at most 4300 digits) the two go through
    the same clamp to 0..99 (7900 plus n clamped) and print the same
    number of diagnostics; when [int] refuses n (no numeral, or more than
    4300 digits) the two raise the same exception. *)
Theorem X9_jp_is_ld_pc (s : string) (tj ti tp : Token.t) (self : Assembler) :
  Token.type tj = "INT" -> Token.value tj = s ->
  Token.type ti = "IMMINT" -> Token.value ti = "#" ++ s ->
  match_pc (Token.value tp) = true ->
  fst (fst (stmt_word (Tree.mk "jp" [tj]) self))
  = fst (fst (stmt_word (Tree.mk "ldi" [tp; ti]) self))
  /\ List.length (diagnostics (snd (stmt_word (Tree.mk "jp" [tj]) self)))
     = List.length (diagnostics (snd (stmt_word (Tree.mk "ldi" [tp; ti]) self)))
  /\ forall v, int s = Val v ->
       fst (fst (stmt_word (Tree.mk "jp" [tj]) self)) = Val (7900 + Z.max 0 (Z.min 99 v)).
Proof.
  intros Htj Hvj Hti Hvi Hpc.
  pose proof (reg_pc_prefix tp self Hpc) as Hreg.
  destruct (int s) as [v | e] eqn:Hint.
  - assert (int (Token.value tj) = Val v) as Hj by now rewrite Hvj.
    assert (int (slice_from1 (Token.value ti)) = Val v) as Hi by now rewrite Hvi.
    pose proof (target_literal tj v self Htj Hj) as Ht.
    pose proof (imm_literal ti v self Hti Hi) as Him.
    destruct (v <? 0)%Z eqn:Elt; [| destruct (v >? 99)%Z eqn:Egt];
      rewrite (stmt_word_jp tj self _ _ _ Ht), (stmt_word_ldi tp ti self 9 _ _ _ Hreg Him);
      cbn [fst snd diagnostics omap list_omap List.length];
      (split; [f_equal; lia |]); (split; [reflexivity |]);
      intros v' [= <-]; f_equal; lia.
  - assert (target tj self = (Raise e, self, [])) as Ht.
    { unfold target. rewrite Htj. cbn [String.eqb Ascii.eqb Bool.eqb].
      unfold mbind, M_bind, bind, lift. now rewrite Hvj, Hint. }
    assert (imm ti self = (Raise e, self, [])) as Him.
    { unfold imm. rewrite Hti. cbn [String.eqb Ascii.eqb Bool.eqb].
      unfold mbind, M_bind, bind, lift. rewrite Hvi.
      change (slice_from1 ("#" ++ s)) with s. now rewrite Hint. }
    rewrite (stmt_word_entry_raise (Tree.mk "jp" [tj]) 7900 word_jump self e self []),
      (stmt_word_entry_raise (Tree.mk "ldi" [tp; ti]) 7000 word_dstimm self e self []);
      try reflexivity.
    + split; [reflexivity |]. split; [reflexivity |]. intros v' [=].
    + cbn [Tree.children]. unfold word_dstimm, item. cbn [lookup list_lookup].
      unfold mbind, M_bind, bind, mret, M_ret, ret. rewrite Hreg. cbn [app].
      now rewrite Him.
    + cbn [Tree.children]. unfold word_jump, item. cbn [lookup list_lookup].
      unfold mbind, M_bind, bind, mret, M_ret, ret. now rewrite Ht.
Qed.

(** X9 at [JP 150] and [LD PC,#150]. *)
Lemma X9_jp_is_ld_pc_witness :
  fst (fst (stmt_word (Tree.mk "jp" [Sample.tk "INT" "150" 1 4]) init))
  = fst (fst (stmt_word (Tree.mk "ldi" [Sample.tk "REG" "PC" 1 4;
                                        Sample.tk "IMMINT" "#150" 1 7]) init))
  /\ fst (fst (stmt_word (Tree.mk "jp" [Sample.tk "INT" "150" 1 4]) init))
     = Val (7900 + Z.max 0 (Z.min 99 150)).
Proof.
  destruct (X9_jp_is_ld_pc "150" (Sample.tk "INT" "150" 1 4) (Sample.tk "IMMINT" "#150" 1 7)
              (Sample.tk "REG" "PC" 1 4) init eq_refl eq_refl eq_refl eq_refl eq_refl)
    as (Hsame & _ & Hword).
  split; [exact Hsame | apply Hword; reflexivity].
Defined.

(** X10: [LD dst,src] assembles to the word of [ADD dst,src,R0], and
    fails as it does, whatever the two operand tokens: the two-register
    form is the three-register form with a third digit 0, and [ld] and
    [add] share the opcode base 0. *)
Theorem X10_ld_is_add_r0 (d s z : Token.t) (self : Assembler) :
  Token.value z = "R0" \/ Token.value z = "r0" ->
  stmt_word (Tree.mk "ld" [d; s]) self = stmt_word (Tree.mk "add" [d; s; z]) self.
Proof.
  intros Hz.
  assert (reg z self = (Val 0, self, [])) as Hregz
    by (unfold reg; destruct Hz as [-> | ->]; reflexivity).
  destruct (reg_result d self) as (rd & Hd & _).
  destruct (reg_result s self) as (rs & Hs & _).
  unfold stmt_word. cbn [dict_item INSTRUCTIONS Tree.data String.eqb Ascii.eqb Bool.eqb].
  unfold mbind at 1 3. unfold M_bind, bind, ret. cbn [fst snd Tree.children].
  unfold word_2addr, word_3addr, item. cbn [lookup list_lookup].
  unfold mbind, M_bind, bind, mret, M_ret, ret. rewrite Hd.
  destruct rd as [dst | e]; [| reflexivity]. cbn [app]. rewrite Hs.
  destruct rs as [src1 | e]; [| reflexivity]. cbn [app]. rewrite Hregz. cbn [app].
  do 3 f_equal. lia.
Qed.

(** X10 at the operands [r1], [r2] and a third operand [R0]. *)
Lemma X10_ld_is_add_r0_witness :
  stmt_word (Tree.mk "ld" [Sample.tk "REG" "r1" 1 5; Sample.tk "REG" "r2" 1 8]) init
  = stmt_word (Tree.mk "add" [Sample.tk "REG" "r1" 1 5; Sample.tk "REG" "r2" 1 8;
                              Sample.tk "REG" "R0" 1 11]) init.
Proof.
  apply (X10_ld_is_add_r0 (Sample.tk "REG" "r1" 1 5) (Sample.tk "REG" "r2" 1 8)
           (Sample.tk "REG" "R0" 1 11) init).
  left. reflexivity.
Defined.

(** ** The range of a word *)

Lemma label_values_fit_Forall (m : gmap string Z) :
  label_values_fit m = true <-> map_Forall (fun _ v => 0 <= v <= 99) m.
Proof.
  unfold label_values_fit. rewrite map_Forall_to_list, forallb_forall, Forall_forall.
  split.
  - intros H [k v] Hkv. specialize (H (k, v)). cbn [snd uncurry] in *.
    assert ((0 <=? v) && (v <=? 99) = true)%Z as Hb by (apply H; now apply list_elem_of_In).
    apply andb_true_iff in Hb as [H0 H9]. lia.
  - intros H [k v] Hkv. apply list_elem_of_In in Hkv. specialize (H (k, v) Hkv).
    cbn [snd uncurry] in *. apply andb_true_iff. lia.
Qed.

Lemma imm_fits (t : Token.t) (self : Assembler) :
  Grammar.imm_tok t = true -> literal_fits t = true ->
  label_values_fit (labels self) = true ->
  exists v out, imm t self = (Val (Some v), self, out) /\ 0 <= v <= 99.
Proof.
  intros H Hlit Hfit. apply imm_tok_inv in H as [[Hty Hv] | [Hty Hv]].
  - rewrite (literal_fits_IMMINT t Hty) in Hlit. apply Z.leb_le in Hlit.
    destruct (int_INT _ (IMMINT_numeral t Hv) Hlit) as (v & Hint & Hpos).
    rewrite (imm_literal t v self Hty Hint).
    destruct (v <? 0)%Z eqn:E0; [eexists _, _; split; [reflexivity | lia] |].
    destruct (v >? 99)%Z eqn:E9; eexists _, _; (split; [reflexivity | lia]).
  - unfold imm. rewrite Hty. cbn [String.eqb Ascii.eqb Bool.eqb].
    unfold mbind, M_bind, bind, get.
    destruct (labels self !! Token.value t) as [a |] eqn:Ea; cbn.
    + eexists _, _. split; [reflexivity |].
      apply label_values_fit_Forall in Hfit. apply (Hfit _ _ Ea).
    + eexists _, _. split; [reflexivity | lia].
Qed.

Lemma target_fits (t : Token.t) (self : Assembler) :
  Grammar.target_tok t = true -> literal_fits t = true ->
  label_values_fit (labels self) = true ->
  exists v out, target t self = (Val (Some v), self, out) /\ 0 <= v <= 99.
Proof.
  intros H Hlit Hfit. apply target_tok_inv in H as [[Hty Hv] | [Hty Hv]].
  - destruct (labels self !! Token.value t) as [a |] eqn:E.
    + rewrite (target_known t a self Hty E). eexists _, _. split; [reflexivity |].
      apply label_values_fit_Forall in Hfit. apply (Hfit _ _ E).
    + rewrite (target_unknown t self Hty E). eexists _, _. split; [reflexivity | lia].
  - rewrite (literal_fits_INT t Hty) in Hlit. apply Z.leb_le in Hlit.
    destruct (int_INT _ Hv Hlit) as (v & Hint & Hpos).
    rewrite (target_literal t v self Hty Hint).
    destruct (v <? 0)%Z eqn:E0; [eexists _, _; split; [reflexivity | lia] |].
    destruct (v >? 99)%Z eqn:E9; eexists _, _; (split; [reflexivity | lia]).
Qed.

Lemma pass1_labels_fit (p : Program) (m : gmap string Z) :
  label_values_fit m = true -> count_stmts p <= 99 ->
  label_values_fit (pass1_labels p 0 m) = true.
Proof.
  intros Hm Hp. apply label_values_fit_Forall. intros name a Ha.
  destruct (pass1_labels_lookup p name 0 m)
    as [[_ Hlook] | (i & l & _ & _ & _ & Hlook)]; rewrite Hlook in Ha.
  - apply label_values_fit_Forall in Hm. apply (Hm _ _ Ha).
  - injection Ha as <-. pose proof (count_stmts_take_le p i). lia.
Qed.

(** X11: while every address in the symbol table is between 0 and 99,
    every statement of the grammar whose literals have at most 4300 digits
    assembles, without raising, to a word between its opcode base and the
    base plus 999, hence between 0 and 8999 (four digits at most), and the
    thousands of the word are those of the base. The table is in that
    range on a new assembler, and stays in it through every request on a
    tree with at most 99 statements. *)
Theorem X11_word_range :
  (forall (stmt : Tree.t) (self : Assembler),
      Grammar.stmt stmt = true -> stmt_fits stmt = true ->
      label_values_fit (labels self) = true ->
      exists base enc w out,
        dict_item INSTRUCTIONS (Tree.data stmt) self = (Val (base, enc), self, []) /\
        stmt_word stmt self = (Val w, self, out) /\
        base <= w <= base + 999 /\ 0 <= w <= 8999 /\ w / 1000 = base / 1000)
  /\ label_values_fit (labels init) = true
  /\ (forall (p : Program) (self : Assembler),
      label_values_fit (labels self) = true -> count_stmts p <= 99 ->
      label_values_fit (labels (snd (fst (request p self)))) = true).
Proof.
  split; [| split; [reflexivity |]].
  2: { intros p self Hfit Hp. rewrite request_labels. now apply pass1_labels_fit. }
  intros [instr ops] self H Hlit Hfit. unfold Grammar.stmt in H. unfold stmt_fits in Hlit.
  cbn [Tree.data Tree.children] in *.
  assert (forall base enc v out,
    dict_item INSTRUCTIONS instr self = (Val (base, enc), self, []) ->
    enc ops self = (Val (Some v), self, out) ->
    base ∈ [0; 1000; 2000; 3000; 4000; 5000; 6000; 7000; 8000] /\ 0 <= v <= 999
    \/ base = 7900 /\ 0 <= v <= 99 ->
    exists base enc w out,
      dict_item INSTRUCTIONS instr self = (Val (base, enc), self, []) /\
      stmt_word (Tree.mk instr ops) self = (Val w, self, out) /\
      base <= w <= base + 999 /\ 0 <= w <= 8999 /\ w / 1000 = base / 1000) as Hdone.
  { intros base enc v out Hd He Hrange. exists base, enc, (base + v), out.
    split; [assumption |].
    split; [now apply stmt_word_entry with (enc := enc) |].
    destruct Hrange as [[Hb Hv] | [-> Hv]].
    - repeat (apply elem_of_cons in Hb as [-> | Hb];
        [repeat split; try lia; Z.to_euclidean_division_equations; lia |]).
      now apply elem_of_nil in Hb.
    - repeat split; try lia. Z.to_euclidean_division_equations. lia. }
  destruct ops as [| t0 [| t1 [| t2 [| ? ?]]]]; try discriminate H.
  - apply andb_true_iff in H as [Hi Ht]. apply String.eqb_eq in Hi. subst instr.
    cbn [forallb] in Hlit. apply andb_true_iff in Hlit as [Hlit0 _].
    destruct (target_fits t0 self Ht Hlit0 Hfit) as (v & out & Hv & Hr).
    apply (Hdone 7900 word_jump v out); [reflexivity | | right; split; [reflexivity | lia]].
    unfold word_jump, item. cbn [lookup list_lookup].
    unfold mbind, M_bind, bind, mret, M_ret, ret. now rewrite Hv.
  - apply andb_true_iff in H as [Hd H].
    destruct (reg_REG t0 (reg_tok_REG _ Hd)) as (dst & Hdst & Edst).
    apply orb_true_iff in H as [H | H]; apply andb_true_iff in H as [Hi Hx].
    + apply String.eqb_eq in Hi. subst instr.
      cbn [forallb] in Hlit. apply andb_true_iff in Hlit as [_ Hlit1].
      apply andb_true_iff in Hlit1 as [Hlit1 _].
      destruct (imm_fits t1 self Hx Hlit1 Hfit) as (v & out & Hv & Hr).
      apply (Hdone 7000 word_dstimm (dst * 100 + v) out);
        [reflexivity | | left; split; [repeat constructor | lia]].
      unfold word_dstimm, item. cbn [lookup list_lookup].
      unfold mbind, M_bind, bind, mret, M_ret, ret. rewrite Edst. cbn [app].
      rewrite Hv. cbn. now rewrite app_nil_r.
    + apply bool_decide_eq_true in Hi.
      destruct (reg_REG t1 (reg_tok_REG _ Hx)) as (src1 & Hsrc1 & E1).
      unfold Grammar.two_regs in Hi.
      repeat (apply elem_of_cons in Hi as [-> | Hi];
        [eapply (Hdone _ word_2addr (dst * 100 + src1 * 10) []);
           [reflexivity | now apply word_2addr_regs | left; split; [repeat constructor | lia]] |]).
      now apply elem_of_nil in Hi.
  - apply andb_true_iff in H as [H H2]. apply andb_true_iff in H as [H H1].
    apply andb_true_iff in H as [Hi H0]. apply bool_decide_eq_true in Hi.
    destruct (reg_REG t0 (reg_tok_REG _ H0)) as (dst & Hdst & Edst).
    destruct (reg_REG t1 (reg_tok_REG _ H1)) as (src1 & Hsrc1 & E1).
    destruct (reg_REG t2 (reg_tok_REG _ H2)) as (src2 & Hsrc2 & E2).
    unfold Grammar.three_regs in Hi.
    repeat (apply elem_of_cons in Hi as [-> | Hi];
      [eapply (Hdone _ word_3addr (dst * 100 + src1 * 10 + src2) []);
         [reflexivity | now apply word_3addr_regs | left; split; [repeat constructor | lia]] |]).
    now apply elem_of_nil in Hi.
Qed.

(** X11 at [JP loop] of the default program, on the assembler that has
    assembled it. *)
Lemma X11_word_range_witness :
  let self := snd (fst (request Sample.defaulttree init)) in
  exists base enc w out,
    dict_item INSTRUCTIONS "jp" self = (Val (base, enc), self, []) /\
    stmt_word (Tree.mk "jp" [Sample.tk "LABEL" "loop" 6 13]) self = (Val w, self, out) /\
    base <= w <= base + 999 /\ 0 <= w <= 8999 /\ w / 1000 = base / 1000.
Proof.
  intros self.
  apply (proj1 X11_word_range (Tree.mk "jp" [Sample.tk "LABEL" "loop" 6 13]) self).
  - reflexivity.
  - reflexivity.
  - apply (proj2 (proj2 X11_word_range) Sample.defaulttree init); [reflexivity |].
    vm_compute. discriminate.
Defined.

(** ** Edge behaviour of the encoders *)

(** X12: on an assembler whose table holds identifiers only, [imm] never
    finds an immediate label: for [#name] it returns 0 and prints exactly
    one [unknown label #name] diagnostic whether or not [name] is in the
    table, so [LD dst,#name] always assembles to 7000 + dst*100. *)
Theorem X12_immediate_label_is_always_unknown
    (token d : Token.t) (name : string) (self : Assembler) :
  label_keys (labels self) = true ->
  Token.type token = "IMMLABEL" -> Token.value token = "#" ++ name ->
  imm token self
  = (Val (Some 0), self,
     [Stderr (str_opt (Token.line token) ++ ":" ++ str_opt (Token.column token)
              ++ " Error: unknown label #" ++ name ++ nl)])
  /\ (Grammar.reg_tok d = true ->
      exists dst out,
        reg d self = (Val dst, self, []) /\
        stmt_word (Tree.mk "ldi" [d; token]) self = (Val (7000 + dst * 100), self, out) /\
        List.length (diagnostics out) = 1%nat).
Proof.
  intros Hkeys Hty Hval.
  pose proof (imm_label token name self Hkeys Hty Hval) as Himm.
  split; [exact Himm |]. intros Hd.
  destruct (reg_REG d (reg_tok_REG d Hd)) as (dst & _ & Hreg).
  exists dst. eexists. split; [apply Hreg |].
  rewrite (stmt_word_ldi d token self dst 0 _ _ (Hreg self) Himm).
  split; [do 3 f_equal; lia | reflexivity].
Qed.

(** X12 at [LD r1,#x] on the assembler that has recorded [x] at 1. *)
Lemma X12_immediate_label_is_always_unknown_witness :
  let self := snd (fst (request Sample.ld_label init)) in
  labels self !! "x" = Some 1
  /\ imm (Sample.tk "IMMLABEL" "#x" 2 10) self
     = (Val (Some 0), self, [Stderr ("2:10 Error: unknown label #x" ++ nl)]).
Proof.
  intros self. split; [vm_compute; reflexivity |].
  apply (proj1 (X12_immediate_label_is_always_unknown
                  (Sample.tk "IMMLABEL" "#x" 2 10) (Sample.tk "REG" "r1" 2 7) "x" self
                  ltac:(vm_compute; reflexivity) eq_refl eq_refl)).
Defined.

Lemma int_not_digit (b : ascii) :
  is_digit b = false -> int (String b EmptyString) = Raise ValueError.
Proof.
  destruct b as [[] [] [] [] [] [] [] []]; intros H; try discriminate H; reflexivity.
Qed.

(** X13: [reg] looks at the start of the token's text only. A text that
    starts with [pc], in any case, gives 9 whatever follows; otherwise the
    second character decides: a digit gives that digit, whatever the first
    character and whatever follows; another character raises [ValueError];
    a text of fewer than two characters raises [IndexError]. In no case is
    anything printed or assigned. (Stated for ASCII first and second
    characters, where one [ascii] is one character of the Python text.) *)
Theorem X13_reg_edge_cases (token : Token.t) (self : Assembler) :
  (match_pc (Token.value token) = true -> reg token self = (Val 9, self, []))
  /\ ((String.length (Token.value token) < 2)%nat ->
      reg token self = (Raise IndexError, self, []))
  /\ (forall a b rest,
      Token.value token = String a (String b rest) ->
      (N_of_ascii a < 128)%N -> (N_of_ascii b < 128)%N ->
      match_pc (Token.value token) = false ->
      (is_digit b = true ->
       reg token self = (Val (digit_val b), self, []) /\ 0 <= digit_val b <= 9)
      /\ (is_digit b = false -> reg token self = (Raise ValueError, self, []))).
Proof.
  split; [apply reg_pc_prefix | split].
  - intros Hlen. unfold reg.
    destruct (Token.value token) as [| a [| b rest]]; [reflexivity | reflexivity |].
    cbn in Hlen. lia.
  - intros a b rest Hv _ _ Hpc. unfold reg. rewrite Hpc, Hv.
    unfold item1, lift, mbind, M_bind, bind. split.
    + intros Hb. rewrite (int_one_digit b Hb). split; [reflexivity |].
      now apply digit_val_range.
    + intros Hb. now rewrite (int_not_digit b Hb).
Qed.

(** X13 at the texts [PCx], [r], [x7y] and [Rx]. *)
Lemma X13_reg_edge_cases_witness :
  reg (Sample.tk "REG" "PCx" 1 1) init = (Val 9, init, [])
  /\ reg (Sample.tk "REG" "r" 1 1) init = (Raise IndexError, init, [])
  /\ reg (Sample.tk "REG" "x7y" 1 1) init = (Val 7, init, [])
  /\ reg (Sample.tk "REG" "Rx" 1 1) init = (Raise ValueError, init, []).
Proof.
  split; [| split; [| split]].
  - apply (proj1 (X13_reg_edge_cases (Sample.tk "REG" "PCx" 1 1) init)). reflexivity.
  - apply (proj1 (proj2 (X13_reg_edge_cases (Sample.tk "REG" "r" 1 1) init))).
    cbn. lia.
  - apply (proj1 (proj2 (proj2 (X13_reg_edge_cases (Sample.tk "REG" "x7y" 1 1) init))
                    "x"%char "7"%char "y" eq_refl ltac:(vm_compute; reflexivity)
                    ltac:(vm_compute; reflexivity) eq_refl)).
    reflexivity.
  - apply (proj2 (proj2 (proj2 (X13_reg_edge_cases (Sample.tk "REG" "Rx" 1 1) init))
                    "R"%char "x"%char "" eq_refl ltac:(vm_compute; reflexivity)
                    ltac:(vm_compute; reflexivity) eq_refl)).
    reflexivity.
Defined.

Lemma dict_item_missing {V} (d : list (string * V)) (key : string) (self : Assembler) :
  key ∉ map fst d -> dict_item d key self = (Raise KeyError, self, []).
Proof.
  induction d as [| [k v] rest IH]; intros Hk; cbn [dict_item]; [reflexivity |].
  cbn [map fst] in Hk. apply not_elem_of_cons in Hk as [Hne Hrest].
  destruct (String.eqb k key) eqn:E; [| now apply IH].
  apply String.eqb_eq in E. congruence.
Qed.

(** X14: a line whose statement cannot be encoded is dropped whole:
    [line_pass2] raises what the encoder raised, before any row is printed
    or appended, and leaves the assembler as it was. The encoder raises
    [KeyError] when the alias of the statement is not in [INSTRUCTIONS],
    and [IndexError] when the alias is there but the statement has no
    operand. *)
Theorem X14_unencodable_statement (l : Line.t) (s : Tree.t) (self : Assembler) :
  Line.children1 l = Some s ->
  (forall e, fst (fst (stmt_word s self)) = Raise e ->
     fst (fst (line_pass2 l self)) = Raise e /\
     snd (fst (line_pass2 l self)) = self /\
     stdout_text (snd (line_pass2 l self)) = "")
  /\ (Tree.data s ∉ map fst INSTRUCTIONS ->
      stmt_word s self = (Raise KeyError, self, []))
  /\ (Tree.data s ∈ map fst INSTRUCTIONS -> Tree.children s = [] ->
      stmt_word s self = (Raise IndexError, self, [])).
Proof.
  intros Hs. split; [| split].
  - intros e He.
    pose proof (stmt_word_pure s self) as Hpure.
    pose proof (stmt_word_only_diagnostics s self) as Hquiet.
    destruct (stmt_word s self) as [[r s1] o1] eqn:Hw.
    unfold id in Hpure. cbn [fst snd] in *. subst r s1.
    rewrite (line_pass2_raise l s self e self o1 Hs Hw). now repeat split.
  - intros Hk. unfold stmt_word, mbind, M_bind, bind.
    now rewrite (dict_item_missing INSTRUCTIONS (Tree.data s) self Hk).
  - intros Hk Hops. destruct s as [instr ops]. cbn [Tree.data Tree.children] in *.
    subst ops. cbn [map fst INSTRUCTIONS] in Hk.
    repeat (apply elem_of_cons in Hk as [-> | Hk]; [reflexivity |]).
    now apply elem_of_nil in Hk.
Qed.

(** X14 at a statement with the unknown alias [nop]. *)
Lemma X14_unencodable_statement_witness :
  let l := Line.mk None (Some (Tree.mk "nop" [])) None in
  stmt_word (Tree.mk "nop" []) init = (Raise KeyError, init, [])
  /\ fst (fst (line_pass2 l init)) = Raise KeyError
  /\ snd (fst (line_pass2 l init)) = init
  /\ stdout_text (snd (line_pass2 l init)) = "".
Proof.
  intros l.
  destruct (X14_unencodable_statement l (Tree.mk "nop" []) init eq_refl)
    as (Hline & Hkey & _).
  assert (stmt_word (Tree.mk "nop" []) init = (Raise KeyError, init, [])) as Hw.
  { apply Hkey. apply (bool_decide_unpack _). vm_compute. exact I. }
  split; [exact Hw |]. apply (Hline KeyError). now rewrite Hw.
Defined.

(** ** The failed assertion, and lines pass 1 ignores *)

(** X15: when the label of a line of the grammar, with no literal of more
    than 4300 digits, is not recorded at the current address, [line_pass2]
    has already printed and appended the row of the line when it raises:
    [AssertionError] if the table holds another address for the label,
    [KeyError] if it holds none. The address counter is not advanced and
    the table is untouched. *)
Theorem X15_row_precedes_assertion (l : Line.t) (name : string) (self : Assembler) :
  Grammar.line l = true -> line_fits l = true -> defined_label l = Some name ->
  labels self !! name <> Some (address self) ->
  exists e word instr textops diag,
    let text := row (address self) word name instr textops (pass2_comment l) in
    line_pass2 l self
    = (Raise e, set_listing (fun lst => lst ++ text) self, (diag ++ [Stdout text])%list)
    /\ stdout_text diag = ""
    /\ (e = match labels self !! name with
            | Some _ => AssertionError
            | None => KeyError
            end).
Proof.
  intros Hl Hfit Hdef Hne. pose proof (pass2_label_defined l Hl) as Hlab.
  rewrite Hdef in Hlab. destruct Hlab as [Hpl Htr].
  assert (check_label (pass2_label l) self
          = Raise (match labels self !! name with
                   | Some _ => AssertionError
                   | None => KeyError
                   end)) as Hcheck.
  { unfold check_label. rewrite Hpl, Htr.
    destruct (labels self !! name) as [a |]; [| reflexivity].
    destruct (a =? address self)%Z eqn:E; [| reflexivity].
    apply Z.eqb_eq in E. subst a. now contradiction Hne. }
  destruct (Line.children1 l) as [s |] eqn:Hs.
  - assert (Grammar.stmt s = true) as Hstmt.
    { unfold Grammar.line in Hl. rewrite Hs in Hl.
      apply andb_true_iff in Hl as [Hl _]. now apply andb_true_iff in Hl as [_ Hl]. }
    assert (stmt_fits s = true) as Hsfit by (unfold line_fits in Hfit; now rewrite Hs in Hfit).
    destruct (stmt_word_total s self Hstmt Hsfit) as (base & enc & w & out & _ & _ & Hw).
    pose proof (stmt_word_only_diagnostics s self) as Hquiet. rewrite Hw in Hquiet.
    rewrite (line_pass2_stmt l s self _ _ Hs Hw). cbv zeta. rewrite Hcheck, Hpl.
    eexists _, _, _, _, out. split; [reflexivity | split; [exact Hquiet | reflexivity]].
  - rewrite (line_pass2_no_stmt l self Hs). rewrite Hpl, Htr. cbn [orb]. cbv zeta.
    rewrite Hpl in Hcheck. rewrite Hcheck.
    eexists _, _, _, _, []. split; [reflexivity | split; reflexivity].
Qed.

(** X15 at the first line of [a: LD r0,r0 / a: LD r0,r0] in pass 2. *)
Lemma X15_row_precedes_assertion_witness :
  let l := Line.mk (Some (Sample.tk "LABELC" "a:" 1 1))
             (Some (Tree.mk "ld" [Sample.tk "REG" "r0" 1 7; Sample.tk "REG" "r0" 1 10])) None in
  let self := mkAssembler (labels (snd (fst (pass1 Sample.twice_a init)))) header 0 Line_pass2 in
  exists e word instr textops diag,
    let text := row (address self) word "a" instr textops (pass2_comment l) in
    line_pass2 l self
    = (Raise e, set_listing (fun lst => lst ++ text) self, (diag ++ [Stdout text])%list)
    /\ stdout_text diag = ""
    /\ (e = match labels self !! "a" with
            | Some _ => AssertionError
            | None => KeyError
            end).
Proof.
  intros l self.
  apply (X15_row_precedes_assertion l "a" self); [reflexivity | reflexivity | reflexivity |].
  vm_compute. discriminate.
Defined.

Lemma pass1_ignores_plain_lines (p : Program) : forall addr (m : gmap string Z),
  pass1_labels (filter (fun l => has_label_or_stmt l = true) p) addr m = pass1_labels p addr m
  /\ count_stmts (filter (fun l => has_label_or_stmt l = true) p) = count_stmts p.
Proof.
  induction p as [| l rest IH]; intros addr m; [now split |].
  rewrite filter_cons. destruct (decide (has_label_or_stmt l = true)) as [Hy | Hn].
  - cbn [pass1_labels]. rewrite !count_stmts_cons.
    split; [apply IH | now rewrite (proj2 (IH addr m))].
  - apply not_true_is_false in Hn. unfold has_label_or_stmt in Hn.
    apply orb_false_iff in Hn as [Hlab Hst].
    assert (defined_label l = None) as Hnone.
    { apply bool_decide_eq_false in Hlab. destruct (defined_label l); [| reflexivity].
      exfalso. apply Hlab. now eexists. }
    cbn [pass1_labels]. rewrite count_stmts_cons, Hnone, Hst.
    split; [apply IH | rewrite (proj2 (IH addr m)); lia].
Qed.

(** X16: lines with neither a label nor a statement (blank and
    comment-only lines) have no effect on pass 1: with or without them,
    pass 1 leaves the same assembler, and a request leaves the same symbol
    table. *)
Theorem X16_plain_lines_do_not_count (p : Program) (self : Assembler) :
  let q := filter (fun l => has_label_or_stmt l = true) p in
  pass1 q self = pass1 p self
  /\ labels (snd (fst (request q self))) = labels (snd (fst (request p self))).
Proof.
  cbv zeta. rewrite !pass1_spec, !request_labels.
  destruct (pass1_ignores_plain_lines p 0 (labels self)) as [-> ->]. now split.
Qed.
